(** * 2Day2Do: the task list of [src/App.tsx]

    A shallow embedding of the state handling of the [App] component:
    the age label, the sort toggle, task navigation and the handlers
    that talk to the hosted store ([fetchTasks], [addTask], [removeTask],
    [updateNotes], [handleDragEnd]).

    Conventions.
    - A JavaScript string is the list of its UTF-16 code units ([str]).
      The labels built by [formatTaskAge] only contain ASCII characters
      and are kept as [string].
    - A JavaScript number that holds an array index, a length or a
      millisecond timestamp is a [Z].
    - [null] and [undefined] are [None].
    - A handler runs to its end before the next event is handled: the
      state it closed over is the live state, and no other handler
      runs while it awaits the store. *)

From Stdlib Require Import List ZArith Lia Bool String Ascii DecimalString Permutation.
Import ListNotations.

Local Open Scope Z_scope.

(** ** Strings *)

Definition str := list N.

Definition str_eq_dec : forall a b : str, {a = b} + {a <> b} :=
  list_eq_dec N.eq_dec.

(** [a === b] on strings. *)
Definition str_eqb (a b : str) : bool :=
  if str_eq_dec a b then true else false.

(** The code units of an ASCII literal. *)
Fixpoint lit (s : string) : str :=
  match s with
  | EmptyString => []
  | String c r => N_of_ascii c :: lit r
  end.

(** ECMAScript WhiteSpace and LineTerminator code units, the ones
    [String.prototype.trim] strips. *)
Definition isWhiteSpace (c : N) : bool :=
  ((9 <=? c) && (c <=? 13) || (c =? 32) || (c =? 160) || (c =? 5760)
   || (8192 <=? c) && (c <=? 8202) || (c =? 8232) || (c =? 8233)
   || (c =? 8239) || (c =? 8287) || (c =? 12288) || (c =? 65279))%N.

Fixpoint trimStart (s : str) : str :=
  match s with
  | [] => []
  | c :: r => if isWhiteSpace c then trimStart r else s
  end.

Definition trimEnd (s : str) : str := rev (trimStart (rev s)).

(** [s.trim()] *)
Definition trim (s : str) : str := trimEnd (trimStart s).

(** [!s] on a string: only the empty string is falsy. *)
Definition str_falsy (s : str) : bool :=
  match s with [] => true | _ => false end.

(** ** Arrays *)

(** [array.findIndex(p)], [-1] when no element satisfies [p]. *)
Fixpoint findIndex {A : Type} (p : A -> bool) (array : list A) : Z :=
  match array with
  | [] => -1
  | x :: r =>
      if p x then 0
      else let i := findIndex p r in if i <? 0 then -1 else i + 1
  end.

(** [array[i]] for an integral [i]. *)
Definition at_index {A : Type} (array : list A) (i : Z) : option A :=
  if i <? 0 then None else nth_error array (Z.to_nat i).

(** The start position [Array.prototype.splice] works with: a negative
    [start] counts from the end, and the result is clamped to the
    array. *)
Definition splice_start (len : nat) (start : Z) : nat :=
  if start <? 0 then Z.to_nat (Z.max (Z.of_nat len + start) 0)
  else Nat.min (Z.to_nat start) len.

(** What [array.splice(i, 1)] leaves in the array. *)
Definition remove_at {A : Type} (i : nat) (array : list A) : list A :=
  firstn i array ++ skipn (S i) array.

(** The array after [array.splice(j, 0, x)]. *)
Definition insert_at {A : Type} (j : nat) (x : A) (array : list A) : list A :=
  firstn j array ++ x :: skipn j array.

(** [arrayMove] of @dnd-kit/sortable:
<<
  const newArray = array.slice();
  newArray.splice(to < 0 ? newArray.length + to : to, 0,
                  newArray.splice(from, 1)[0]);
  return newArray;
>>
    The first argument of the outer [splice] is evaluated before the
    inner [splice] shortens the array.  When the inner [splice] removes
    nothing the element put back is [undefined]; the result is then
    [None]. *)
Definition arrayMove {A : Type} (array : list A) (from to : Z)
  : option (list A) :=
  let len := List.length array in
  let target := if to <? 0 then Z.of_nat len + to else to in
  let i := splice_start len from in
  match nth_error array i with
  | None => None
  | Some x =>
      let rest := remove_at i array in
      Some (insert_at (splice_start (List.length rest) target) x rest)
  end.

(** [array.entries()]: each element with its index. *)
Fixpoint entries_from {A : Type} (k : Z) (array : list A) : list (Z * A) :=
  match array with
  | [] => []
  | x :: r => (k, x) :: entries_from (k + 1) r
  end.

Definition entries {A : Type} (array : list A) : list (Z * A) :=
  entries_from 0 array.

(** ** The age label *)

(** [`${n}`] for an integral number. *)
Definition number_to_string (n : Z) : string :=
  NilZero.string_of_int (Z.to_int n).

(** [`${n} ${unit}${n === 1 ? '' : 's'} ago`] *)
Definition ago (n : Z) (unit : string) : string :=
  (number_to_string n ++ " " ++ unit ++ (if (n =? 1)%Z then "" else "s")
   ++ " ago")%string.

(** [formatTaskAge]; [created] is [new Date(createdAt).getTime()] and
    [now] is [Date.now()], both in milliseconds.  [Math.floor] of a
    quotient by a positive number is [Z.div]. *)
Definition formatTaskAge (now created : Z) : string :=
  let diffMinutes := (now - created) / (1000 * 60) in
  if diffMinutes <? 60 then
    if diffMinutes <? 1 then "Just now"%string
    else ago diffMinutes "minute"
  else
    let diffHours := diffMinutes / 60 in
    if diffHours <? 24 then ago diffHours "hour"
    else
      let diffDays := diffHours / 24 in
      if diffDays <? 30 then ago diffDays "day"
      else
        let diffMonths := diffDays / 30 in
        ago diffMonths "month".

(** ** Data model *)

(** [interface Task] *)
Module Task.
Record t := mk {
  id : str;
  text : str;
  notes : str;
  priority : Z;
  user_id : str;
  created_at : str
}.

(** [{ ...task, notes: v }] *)
Definition with_notes (task : t) (v : str) : t :=
  mk (id task) (text task) v (priority task) (user_id task)
     (created_at task).
End Task.

(** The session user; the component only reads [user.id]. *)
Module User.
Record t := mk { id : str }.
End User.

Inductive SortType := priority | age.
Inductive SortOrder := asc | desc.
Inductive Direction := next | prev.

(** The [useState] cells of [App] that the task handlers read or
    write.  The remaining cells ([loading], [email], [password],
    [authError], [showRawMarkdown], [viewMode]) are touched by none of
    them. *)
Record App := mkApp {
  user : option User.t;
  tasks : list Task.t;
  newTask : str;
  selectedTask : option Task.t;
  notes : str;
  sortType : SortType;
  sortOrder : SortOrder
}.

(** ** The store client *)

Inductive Column := priority_column | created_at_column.

(** The object given to [insert]. *)
Record NewRow := mkNewRow {
  row_text : str;
  row_notes : str;
  row_priority : Z;
  row_user_id : str
}.

(** The object given to [update]: [{ notes }] or [{ priority }]. *)
Inductive Patch :=
| patch_notes (v : str)
| patch_priority (v : Z).

Inductive Error :=
| PostgrestError (message : str)
| TypeError (message : string).

(** The four calls the component makes on [supabase.from('tasks')]. *)
Inductive Request :=
| Select (column : Column) (ascending : bool)
| Insert (row : NewRow)
| Update (patch : Patch) (id : str)
| Delete (id : str).

(** What the hosted store answers.  [B] is the state of the store; a
    call returns the [{ data, error }] pair it resolves to and the
    state it leaves behind.  Nothing is assumed about either. *)
Class Supabase (B : Type) := {
  (** [.select('*').order(column, { ascending })] *)
  select_order : Column -> bool -> B -> (Error + option (list Task.t)) * B;
  (** [.insert([row]).select().single()] *)
  insert_single : NewRow -> B -> (Error + Task.t) * B;
  (** [.update(patch).eq('id', id)] *)
  update_eq : Patch -> str -> B -> option Error * B;
  (** [.delete().eq('id', id)] *)
  delete_eq : str -> B -> option Error * B
}.

(** ** Handlers *)

Inductive Result (A : Type) :=
| Return (a : A)
| Throw (e : Error).

Arguments Return {A} a.
Arguments Throw {A} e.

(** The part of dnd-kit's [DragEndEvent] the handler reads: the ids of
    the dragged item and of the item it was dropped on ([over] is
    [null] when it was dropped on none). *)
Record DragEndEvent := mkDragEnd {
  active : str;
  over : option str
}.

(** [task => task.id === id] *)
Definition has_id (id : str) (task : Task.t) : bool :=
  str_eqb (Task.id task) id.

Section Handlers.

Context {B : Type} {store : Supabase B}.

(** Everything a handler can read or change: the live React state, the
    store, the calls sent to the store so far (oldest first) and the
    lines written with [console.error]. *)
Record World := mkWorld {
  app : App;
  remote : B;
  issued : list Request;
  console : list (string * Error)
}.

(** A handler body: it runs in a world and either returns or throws. *)
Definition M (A : Type) := World -> Result A * World.

Definition ret {A : Type} (a : A) : M A := fun w => (Return a, w).

Definition throw {A : Type} (e : Error) : M A := fun w => (Throw e, w).

Definition bind {A C : Type} (m : M A) (k : A -> M C) : M C :=
  fun w =>
    match m w with
    | (Return a, w') => k a w'
    | (Throw e, w') => (Throw e, w')
    end.

Notation "x <- m ;; k" := (bind m (fun x => k))
  (at level 61, m at next level, right associativity).
Notation "m ;; k" := (bind m (fun _ => k))
  (at level 61, right associativity).

(** [try { body } catch (error) { handler(error) }] *)
Definition try_catch (body : M unit) (handler : Error -> M unit) : M unit :=
  fun w =>
    match body w with
    | (Return a, w') => (Return a, w')
    | (Throw e, w') => handler e w'
    end.

(** [for (const x of xs) { body(x) }] *)
Fixpoint for_of {A : Type} (xs : list A) (body : A -> M unit) : M unit :=
  match xs with
  | [] => ret tt
  | x :: r => body x ;; for_of r body
  end.

Definition console_error (label : string) (e : Error) : M unit :=
  fun w =>
    (Return tt,
     mkWorld (app w) (remote w) (issued w) (console w ++ [(label, e)])).

(** The state setters act on the live state. *)
Definition set_state (f : App -> App) : M unit :=
  fun w => (Return tt, mkWorld (f (app w)) (remote w) (issued w) (console w)).

Definition setUser (v : option User.t) : M unit :=
  set_state (fun s => mkApp v (tasks s) (newTask s) (selectedTask s)
                            (notes s) (sortType s) (sortOrder s)).

Definition setTasks (v : list Task.t) : M unit :=
  set_state (fun s => mkApp (user s) v (newTask s) (selectedTask s)
                            (notes s) (sortType s) (sortOrder s)).

Definition setNewTask (v : str) : M unit :=
  set_state (fun s => mkApp (user s) (tasks s) v (selectedTask s)
                            (notes s) (sortType s) (sortOrder s)).

Definition setSelectedTask (v : option Task.t) : M unit :=
  set_state (fun s => mkApp (user s) (tasks s) (newTask s) v
                            (notes s) (sortType s) (sortOrder s)).

Definition setNotes (v : str) : M unit :=
  set_state (fun s => mkApp (user s) (tasks s) (newTask s) (selectedTask s)
                            v (sortType s) (sortOrder s)).

Definition setSortType (v : SortType) : M unit :=
  set_state (fun s => mkApp (user s) (tasks s) (newTask s) (selectedTask s)
                            (notes s) v (sortOrder s)).

(** [setSortOrder(current => f(current))] *)
Definition setSortOrder (f : SortOrder -> SortOrder) : M unit :=
  set_state (fun s => mkApp (user s) (tasks s) (newTask s) (selectedTask s)
                            (notes s) (sortType s) (f (sortOrder s))).

(** A call to the store: it is recorded, then answered. *)
Definition call {A : Type} (rq : Request) (serve : B -> A * B) : M A :=
  fun w =>
    let (answer, b) := serve (remote w) in
    (Return answer, mkWorld (app w) b (issued w ++ [rq]) (console w)).

Definition from_tasks_select (column : Column) (ascending : bool) :=
  call (Select column ascending) (select_order column ascending).

Definition from_tasks_insert (row : NewRow) :=
  call (Insert row) (insert_single row).

Definition from_tasks_update (patch : Patch) (id : str) :=
  call (Update patch id) (update_eq patch id).

Definition from_tasks_delete (id : str) :=
  call (Delete id) (delete_eq id).

(** [if (error) throw error;] *)
Definition throw_if (error : option Error) : M unit :=
  match error with
  | Some e => throw e
  | None => ret tt
  end.

Definition is_null {A : Type} (v : option A) : bool :=
  match v with Some _ => false | None => true end.

(** The handlers take the state of the render they were created in
    ([c]) and write through the setters. *)

Definition fetchTasks (c : App) : M unit :=
  match user c with
  | None => ret tt
  | Some _ =>
      try_catch
        (r <- from_tasks_select
                (match sortType c with
                 | priority => priority_column
                 | age => created_at_column
                 end)
                (match sortOrder c with asc => true | desc => false end) ;;
         match r with
         | inl error => throw error
         | inr data =>
             setTasks (match data with Some rows => rows | None => [] end)
         end)
        (console_error "Error fetching tasks:")
  end.

Definition addTask (c : App) : M unit :=
  if str_falsy (trim (newTask c)) then ret tt
  else
    match user c with
    | None => ret tt
    | Some u =>
        try_catch
          (r <- from_tasks_insert
                  (mkNewRow (newTask c) [] (Z.of_nat (List.length (tasks c)))
                            (User.id u)) ;;
           match r with
           | inl error => throw error
           | inr data =>
               setTasks (tasks c ++ [data]) ;;
               setNewTask []
           end)
          (console_error "Error adding task:")
    end.

Definition removeTask (c : App) (id : str) : M unit :=
  try_catch
    (error <- from_tasks_delete id ;;
     throw_if error ;;
     setTasks (filter (fun task => negb (has_id id task)) (tasks c)) ;;
     match selectedTask c with
     | Some sel =>
         if has_id id sel
         then setSelectedTask None ;; setNotes []
         else ret tt
     | None => ret tt
     end)
    (console_error "Error removing task:").

Definition updateNotes (c : App) (newNotes : str) : M unit :=
  match selectedTask c with
  | None => ret tt
  | Some sel =>
      try_catch
        (error <- from_tasks_update (patch_notes newNotes) (Task.id sel) ;;
         throw_if error ;;
         setNotes newNotes ;;
         setTasks (map (fun task =>
                          if has_id (Task.id sel) task
                          then Task.with_notes task newNotes
                          else task)
                       (tasks c)))
        (console_error "Error updating notes:")
  end.

(** The body of the loop of [handleDragEnd]. *)
Definition persist_priority (entry : Z * Task.t) : M unit :=
  let '(index, task) := entry in
  error <- from_tasks_update (patch_priority index) (Task.id task) ;;
  throw_if error.

Definition handleDragEnd (c : App) (event : DragEndEvent) : M unit :=
  match over event with
  | None => throw (TypeError "Cannot read properties of null (reading 'id')")
  | Some over_id =>
      if negb (str_eqb (active event) over_id) then
        let oldIndex := findIndex (has_id (active event)) (tasks c) in
        let newIndex := findIndex (has_id over_id) (tasks c) in
        try_catch
          (match arrayMove (tasks c) oldIndex newIndex with
           | None =>
               throw (TypeError
                 "Cannot read properties of undefined (reading 'id')")
           | Some newTasks =>
               for_of (entries newTasks) persist_priority ;;
               setTasks newTasks
           end)
          (console_error "Error updating priorities:")
      else ret tt
  end.

Definition toggleSort (c : App) : M unit :=
  match sortType c with
  | priority =>
      setSortType age ;;
      setSortOrder (fun _ => desc)
  | age =>
      setSortOrder (fun current =>
                      match current with asc => desc | desc => asc end)
  end.

(** JavaScript's [%] on integers: the result has the sign of the
    dividend. *)
Definition js_rem (a b : Z) : Z := Z.rem a b.

Definition getAdjacentTask (c : App) (direction : Direction)
  : option Task.t :=
  match selectedTask c with
  | None => None
  | Some sel =>
      if Z.of_nat (List.length (tasks c)) =? 0 then None
      else
        let currentIndex := findIndex (has_id (Task.id sel)) (tasks c) in
        if currentIndex =? -1 then None
        else
          let newIndex :=
            match direction with
            | next => js_rem (currentIndex + 1)
                             (Z.of_nat (List.length (tasks c)))
            | prev => js_rem (currentIndex - 1
                              + Z.of_nat (List.length (tasks c)))
                             (Z.of_nat (List.length (tasks c)))
            end in
          at_index (tasks c) newIndex
  end.

(** Running a handler from the current render: its closure holds the
    live state. *)
Definition dispatch (handler : App -> M unit) (w : World) : World :=
  snd (handler (app w) w).

End Handlers.

(** ** Runs *)

Section Runs.

Context {B : Type} {store : Supabase B}.

(** What can happen to a world: a handler runs, or local state changes
    in some other way (typing in the input, selecting a task, a change
    of session).  [ToggleSort] is the handler alone; in the component a
    click on the sort button is [ToggleSort] followed by [Fetch], the
    effect that runs when [sortType] or [sortOrder] has changed. *)
Inductive Action :=
| Fetch
| Add
| Remove (id : str)
| EditNotes (newNotes : str)
| DragEnd (event : DragEndEvent)
| ToggleSort
| Local (change : App -> App).

Definition perform (w : World) (a : Action) : World :=
  match a with
  | Fetch => dispatch fetchTasks w
  | Add => dispatch addTask w
  | Remove id => dispatch (fun c => removeTask c id) w
  | EditNotes newNotes => dispatch (fun c => updateNotes c newNotes) w
  | DragEnd event => dispatch (fun c => handleDragEnd c event) w
  | ToggleSort => dispatch toggleSort w
  | Local change =>
      mkWorld (change (app w)) (remote w) (issued w) (console w)
  end.

Definition run (w : World) (actions : list Action) : World :=
  fold_left perform actions w.

(** The update call [handleDragEnd] makes for an entry of
    [newTasks.entries()]. *)
Definition priority_update (e : Z * Task.t) : Request :=
  Update (patch_priority (fst e)) (Task.id (snd e)).

(** The store after it has served the priority updates of [es], one
    after the other. *)
Fixpoint serve_updates (b : B) (es : list (Z * Task.t)) : B :=
  match es with
  | [] => b
  | e :: r =>
      serve_updates
        (snd (update_eq (patch_priority (fst e)) (Task.id (snd e)) b)) r
  end.

(** Whether the store, starting from [b], answers every priority update
    of [es] without an error. *)
Fixpoint updates_succeed (b : B) (es : list (Z * Task.t)) : bool :=
  match es with
  | [] => true
  | e :: r =>
      let answer := update_eq (patch_priority (fst e)) (Task.id (snd e)) b in
      is_null (fst answer) && updates_succeed (snd answer) r
  end.

(** Whether the store, in state [b], answers the call [rq] with an
    error. *)
Definition fails (rq : Request) (b : B) : bool :=
  match rq with
  | Select column ascending =>
      match fst (select_order column ascending b) with
      | inl _ => true
      | inr _ => false
      end
  | Insert row =>
      match fst (insert_single row b) with
      | inl _ => true
      | inr _ => false
      end
  | Update patch id => negb (is_null (fst (update_eq patch id b)))
  | Delete id => negb (is_null (fst (delete_eq id b)))
  end.

(** The data operations of the store client. *)
Inductive DataOperation :=
| op_fetch
| op_insert
| op_delete (id : str)
| op_notes_update (newNotes : str).

Definition run_operation (op : DataOperation) (w : World) : World :=
  match op with
  | op_fetch => dispatch fetchTasks w
  | op_insert => dispatch addTask w
  | op_delete id => dispatch (fun c => removeTask c id) w
  | op_notes_update newNotes => dispatch (fun c => updateNotes c newNotes) w
  end.

End Runs.

(** A request that creates a task carries a text with a character that
    is not white space. *)
Definition visible_text (rq : Request) : bool :=
  match rq with
  | Insert row => existsb (fun c => negb (isWhiteSpace c)) (row_text row)
  | _ => true
  end.

(** ** A table-backed store

    A store that keeps the rows of [public.tasks] the session can see.
    [faults] scripts its failures: each call consumes one flag and
    answers with an error, leaving the rows alone, when the flag is
    set.  [supply] holds the [id] and [created_at] values the server
    will assign to the next rows. *)
Module Db.

Record t := mk {
  rows : list Task.t;
  faults : list bool;
  supply : list (str * str)
}.

Definition unavailable : Error := PostgrestError (lit "unavailable").

(** Consume one fault flag. *)
Definition tick (db : t) : bool * t :=
  match faults db with
  | [] => (false, db)
  | f :: r => (f, mk (rows db) r (supply db))
  end.

Fixpoint str_leb (a b : str) : bool :=
  match a, b with
  | [], _ => true
  | _ :: _, [] => false
  | x :: a', y :: b' =>
      if (x <? y)%N then true
      else if (y <? x)%N then false
      else str_leb a' b'
  end.

Definition row_leb (column : Column) (ascending : bool) (x y : Task.t)
  : bool :=
  let le :=
    match column with
    | priority_column => fun u v => Task.priority u <=? Task.priority v
    | created_at_column =>
        fun u v => str_leb (Task.created_at u) (Task.created_at v)
    end in
  if ascending then le x y else le y x.

Fixpoint insert_sorted (leb : Task.t -> Task.t -> bool) (x : Task.t)
  (l : list Task.t) : list Task.t :=
  match l with
  | [] => [x]
  | y :: r => if leb x y then x :: l else y :: insert_sorted leb x r
  end.

Definition order_by (column : Column) (ascending : bool)
  (l : list Task.t) : list Task.t :=
  fold_right (insert_sorted (row_leb column ascending)) [] l.

Definition apply_patch (patch : Patch) (row : Task.t) : Task.t :=
  match patch with
  | patch_notes v => Task.with_notes row v
  | patch_priority v =>
      Task.mk (Task.id row) (Task.text row) (Task.notes row) v
              (Task.user_id row) (Task.created_at row)
  end.

Definition select (column : Column) (ascending : bool) (db : t)
  : (Error + option (list Task.t)) * t :=
  let (fault, db') := tick db in
  if fault then (inl unavailable, db')
  else (inr (Some (order_by column ascending (rows db'))), db').

Definition insert (row : NewRow) (db : t) : (Error + Task.t) * t :=
  let (fault, db') := tick db in
  if fault then (inl unavailable, db')
  else
    match supply db' with
    | [] => (inl unavailable, db')
    | (new_id, now) :: r =>
        let created :=
          Task.mk new_id (row_text row) (row_notes row) (row_priority row)
                  (row_user_id row) now in
        (inr created, mk (rows db' ++ [created]) (faults db') r)
    end.

Definition update (patch : Patch) (id : str) (db : t)
  : option Error * t :=
  let (fault, db') := tick db in
  if fault then (Some unavailable, db')
  else
    (None,
     mk (map (fun row => if has_id id row then apply_patch patch row
                         else row)
             (rows db'))
        (faults db') (supply db')).

Definition delete (id : str) (db : t) : option Error * t :=
  let (fault, db') := tick db in
  if fault then (Some unavailable, db')
  else
    (None,
     mk (filter (fun row => negb (has_id id row)) (rows db'))
        (faults db') (supply db')).

#[global] Instance client : Supabase t := {
  select_order := select;
  insert_single := insert;
  update_eq := update;
  delete_eq := delete
}.

End Db.

(** ** A small session, used to run the handlers *)

Module Sample.

Definition ann : User.t := User.mk (lit "ann").

Definition milk : Task.t :=
  Task.mk (lit "t1") (lit "buy milk") [] 0 (lit "ann")
          (lit "2025-04-07T14:39:02Z").

Definition rent : Task.t :=
  Task.mk (lit "t2") (lit "pay rent") (lit "due *Friday*") 1 (lit "ann")
          (lit "2025-04-08T09:00:00Z").

Definition call_mum : Task.t :=
  Task.mk (lit "t3") (lit "call mum") [] 2 (lit "ann")
          (lit "2025-04-09T18:30:00Z").

Definition state : App :=
  mkApp (Some ann) [milk; rent; call_mum] (lit "water plants")
        (Some rent) (lit "due *Friday*") priority asc.

Definition db (faults : list bool) : Db.t :=
  Db.mk [milk; rent; call_mum] faults
        [(lit "t4", lit "2025-04-10T08:00:00Z")].

(** The session with a store that fails as [faults] says. *)
Definition world (faults : list bool) : World :=
  mkWorld state (db faults) [] [].

(** Dropping the task with id [a] on the task with id [o]. *)
Definition drag (a o : string) : DragEndEvent :=
  mkDragEnd (lit a) (Some (lit o)).

End Sample.

(** ** The rest of the component

    The click handlers written inline in the JSX, the cells the task
    handlers leave alone, and the sign-in handlers. *)

Section Selection.

Context {B : Type}.

(** [onSelect] of a task row:
    [setSelectedTask(task); setNotes(task.notes);] *)
Definition selectTask (task : Task.t) : @M B unit :=
  bind (setSelectedTask (Some task)) (fun _ => setNotes (Task.notes task)).

(** [onClick] of the previous and next buttons, the handler alone
    (see [press] for the button):
<<
  const nextTask = getAdjacentTask('next');
  if (nextTask) { setSelectedTask(nextTask); setNotes(nextTask.notes); }
>> *)
Definition navigate (c : App) (direction : Direction) : @M B unit :=
  match getAdjacentTask c direction with
  | Some adjacent =>
      bind (setSelectedTask (Some adjacent))
           (fun _ => setNotes (Task.notes adjacent))
  | None => ret tt
  end.

(** A press of the previous or of the next button.  Both buttons
    carry [disabled={tasks.length <= 1}]: with at most one task a press
    reaches no handler. *)
Definition press (c : App) (direction : Direction) : @M B unit :=
  if Z.of_nat (List.length (tasks c)) <=? 1 then ret tt
  else navigate c direction.

(** The world in which [task] has just been selected: the selection
    and the notes buffer are written, nothing else. *)
Definition selecting (w : @World B) (task : Task.t) : @World B :=
  mkWorld (mkApp (user (app w)) (tasks (app w)) (newTask (app w))
                 (Some task) (Task.notes task)
                 (sortType (app w)) (sortOrder (app w)))
          (remote w) (issued w) (console w).

(** The effect that follows a change of [user], [sortType] or
    [sortOrder]: [if (user) { fetchTasks(); }] *)
Definition fetch_effect {store : Supabase B} (c : App) : @M B unit :=
  match user c with
  | Some _ => fetchTasks c
  | None => ret tt
  end.

End Selection.

(** The number shown in [Task #k of n], rendered while a task is
    selected: [tasks.findIndex(t => t.id === selectedTask.id) + 1]. *)
Definition taskNumber (c : App) : option Z :=
  match selectedTask c with
  | Some sel => Some (findIndex (has_id (Task.id sel)) (tasks c) + 1)
  | None => None
  end.

(** ['split' | 'list' | 'notes'] *)
Inductive ViewMode := split_view | list_view | notes_view.

(** The updater of the view button. *)
Definition nextViewMode (current : ViewMode) : ViewMode :=
  match current with
  | split_view => list_view
  | list_view => notes_view
  | notes_view => split_view
  end.

(** The label of the view button. *)
Definition viewButtonLabel (viewMode : ViewMode) : string :=
  match viewMode with
  | split_view => "To List View"
  | list_view => "To Note View"
  | notes_view => "To Split View"
  end.

(** [viewMode === 'split' || viewMode === 'list']: the task list panel
    is rendered. *)
Definition showsTaskList (viewMode : ViewMode) : bool :=
  match viewMode with
  | split_view | list_view => true
  | notes_view => false
  end.

(** [viewMode === 'split' || viewMode === 'notes']: the notes panel is
    rendered. *)
Definition showsNotes (viewMode : ViewMode) : bool :=
  match viewMode with
  | split_view | notes_view => true
  | list_view => false
  end.

(** The sign-in cells. *)
Record Gate := mkGate {
  loading : bool;
  email : str;
  password : str;
  authError : str
}.

Definition setLoading (v : bool) (g : Gate) : Gate :=
  mkGate v (email g) (password g) (authError g).

Definition setAuthError (v : str) (g : Gate) : Gate :=
  mkGate (loading g) (email g) (password g) v.

(** The [error] of an answer of [supabase.auth]; the component reads
    its [message]. *)
Record AuthError := mkAuthError { message : str }.

(** How a call on [supabase.auth] ends: the promise resolves to
    [{ error }], or it rejects. *)
Inductive AuthOutcome :=
| resolved (error : option AuthError)
| rejected.

Inductive AuthRequest :=
| SignIn (credentials : str * str)
| SignUp (credentials : str * str).

(** The identity provider: [A] is its state, a call takes the email and
    the password. *)
Class SupabaseAuth (A : Type) := {
  signInWithPassword : str -> str -> A -> AuthOutcome * A;
  signUp : str -> str -> A -> AuthOutcome * A
}.

Section SignIn.

Context {A : Type} {provider : SupabaseAuth A}.

Record GateWorld := mkGateWorld {
  gate : Gate;
  auth : A;
  auth_issued : list AuthRequest
}.

Definition set_gate (f : Gate -> Gate) (w : GateWorld) : GateWorld :=
  mkGateWorld (f (gate w)) (auth w) (auth_issued w).

(** The body shared by [handleSignIn] and [handleSignUp]:
<<
  setLoading(true);
  setAuthError('');
  try {
    const { error } = await call({ email, password });
    if (error) { setAuthError(error.message); }
  } catch (error) {
    setAuthError('An unexpected error occurred');
  } finally {
    setLoading(false);
  }
>> *)
Definition attempt (rq : AuthRequest) (serve : A -> AuthOutcome * A)
  (w : GateWorld) : GateWorld :=
  let w1 := set_gate (setLoading true) w in
  let w2 := set_gate (setAuthError []) w1 in
  let (outcome, a) := serve (auth w2) in
  let w3 := mkGateWorld (gate w2) a (auth_issued w2 ++ [rq]) in
  let w4 :=
    match outcome with
    | resolved (Some error) => set_gate (setAuthError (message error)) w3
    | resolved None => w3
    | rejected =>
        set_gate (setAuthError (lit "An unexpected error occurred")) w3
    end in
  set_gate (setLoading false) w4.

Definition handleSignIn (c : Gate) : GateWorld -> GateWorld :=
  attempt (SignIn (email c, password c))
          (signInWithPassword (email c) (password c)).

Definition handleSignUp (c : Gate) : GateWorld -> GateWorld :=
  attempt (SignUp (email c, password c)) (signUp (email c) (password c)).

End SignIn.

(** The whole page: the task state with its store, the sign-in cells
    and the two display cells. *)
Record Page (B : Type) := mkPage {
  page_world : @World B;
  page_gate : Gate;
  showRawMarkdown : bool;
  viewMode : ViewMode
}.

Arguments mkPage {B} _ _ _ _.
Arguments page_world {B} _.
Arguments page_gate {B} _.
Arguments showRawMarkdown {B} _.
Arguments viewMode {B} _.

(** The callback given to [onAuthStateChange]:
    [setUser(session?.user ?? null); setLoading(false);] *)
Definition onAuthStateChange {B : Type} (session_user : option User.t)
  (p : Page B) : Page B :=
  mkPage (dispatch (fun _ => setUser session_user) (page_world p))
         (setLoading false (page_gate p))
         (showRawMarkdown p) (viewMode p).

(** A task handler or effect running on the page. *)
Definition on_world {B : Type} (handler : App -> @M B unit) (p : Page B)
  : Page B :=
  mkPage (dispatch handler (page_world p)) (page_gate p)
         (showRawMarkdown p) (viewMode p).

(** What [App] returns: the loading line while [loading], the sign-in
    form without a user, the task view otherwise. *)
Inductive Screen := LoadingScreen | SignInForm | TaskView.

Definition screen {B : Type} (p : Page B) : Screen :=
  if loading (page_gate p) then LoadingScreen
  else
    match user (app (page_world p)) with
    | None => SignInForm
    | Some _ => TaskView
    end.

(** The handler runs that work on the tasks already listed: deleting,
    editing notes and reordering.  None of them writes [user],
    [sortType] or [sortOrder], so none is followed by the effect that
    fetches. *)
Definition edits_in_place (a : Action) : bool :=
  match a with
  | Remove _ | EditNotes _ | DragEnd _ => true
  | Fetch | Add | ToggleSort | Local _ => false
  end.

(** The handler runs that neither fetch nor make the effect fetch:
    creating, deleting, editing notes and reordering.  A click on the
    sort button is left out: it changes [sortType] or [sortOrder], and
    the effect then runs [fetchTasks]. *)
Definition keeps_selection (a : Action) : bool :=
  match a with
  | Add | Remove _ | EditNotes _ | DragEnd _ => true
  | Fetch | ToggleSort | Local _ => false
  end.

(** The selected task, when there is one, has the id of a listed
    task. *)
Definition selection_listed (s : App) : Prop :=
  forall sel, selectedTask s = Some sel ->
              In (Task.id sel) (map Task.id (tasks s)).

(** An identity provider that answers as scripted, one outcome per
    call; it accepts once the script is used up. *)
Module Script.

Definition t := list AuthOutcome.

Definition answer (script : t) : AuthOutcome * t :=
  match script with
  | [] => (resolved None, [])
  | outcome :: r => (outcome, r)
  end.

#[global] Instance provider : SupabaseAuth t := {
  signInWithPassword := fun _ _ => answer;
  signUp := fun _ _ => answer
}.

End Script.

Module Demo.

Definition bob : User.t := User.mk (lit "bob").

Definition form : Gate :=
  mkGate false (lit "ann@example.org") (lit "secret") (lit "old message").

Definition gate_world (script : Script.t) : GateWorld :=
  mkGateWorld form script [].

Definition page (faults : list bool) : Page Db.t :=
  mkPage (Sample.world faults) (mkGate false [] [] []) false split_view.

End Demo.

(** * Properties *)

(** ** Arrays *)

Lemma findIndex_range {A : Type} (p : A -> bool) (l : list A) :
  -1 <= findIndex p l < Z.of_nat (List.length l).
Proof.
  induction l as [|x r IH]; simpl; [lia|].
  destruct (p x); [lia|].
  destruct (findIndex p r <? 0) eqn:E; [lia|].
  apply Z.ltb_ge in E. lia.
Qed.

Lemma findIndex_found {A : Type} (p : A -> bool) (l : list A) (i : nat) :
  findIndex p l = Z.of_nat i ->
  exists x, nth_error l i = Some x /\ p x = true.
Proof.
  revert i. induction l as [|x r IH]; simpl; intros i H; [lia|].
  destruct (p x) eqn:P.
  - assert (i = 0%nat) by lia. subst. exists x. auto.
  - destruct (findIndex p r <? 0) eqn:E; [lia|].
    apply Z.ltb_ge in E.
    destruct i as [|i]; [lia|].
    apply (IH i). lia.
Qed.

Lemma findIndex_missing {A : Type} (p : A -> bool) (l : list A) :
  findIndex p l = -1 <-> forallb (fun x => negb (p x)) l = true.
Proof.
  induction l as [|x r IH]; simpl; [tauto|].
  destruct (p x); simpl.
  - split; [lia | discriminate].
  - destruct (findIndex p r <? 0) eqn:E.
    + apply Z.ltb_lt in E. pose proof (findIndex_range p r).
      rewrite <- IH. split; intros; lia.
    + apply Z.ltb_ge in E. rewrite <- IH. split; intros; lia.
Qed.

Lemma findIndex_In (l : list Task.t) (x : str) :
  In x (map Task.id l) -> exists i, findIndex (has_id x) l = Z.of_nat i.
Proof.
  intros H.
  pose proof (findIndex_range (has_id x) l) as R.
  destruct (Z.eq_dec (findIndex (has_id x) l) (-1)) as [E|E].
  - apply findIndex_missing in E. rewrite forallb_forall in E.
    apply in_map_iff in H. destruct H as [t [Ht Hin]].
    specialize (E t Hin). unfold has_id, str_eqb in E.
    destruct (str_eq_dec (Task.id t) x); [discriminate | contradiction].
  - exists (Z.to_nat (findIndex (has_id x) l)). lia.
Qed.

Lemma splice_start_inside (len i : nat) :
  (i <= len)%nat -> splice_start len (Z.of_nat i) = i.
Proof.
  intros H. unfold splice_start.
  destruct (Z.of_nat i <? 0) eqn:E; [apply Z.ltb_lt in E; lia|].
  rewrite Nat2Z.id. lia.
Qed.

Lemma remove_at_length {A : Type} (i : nat) (l : list A) :
  (i < List.length l)%nat ->
  List.length (remove_at i l) = (List.length l - 1)%nat.
Proof.
  intros H. unfold remove_at.
  rewrite length_app, length_firstn, length_skipn. lia.
Qed.

Lemma nth_error_split_at {A : Type} (l : list A) (j : nat) (x : A) :
  nth_error l j = Some x -> l = firstn j l ++ x :: skipn (S j) l.
Proof.
  revert j. induction l as [|y r IH]; intros [|j] H; simpl in *;
    try discriminate.
  - congruence.
  - f_equal. auto.
Qed.

Lemma insert_at_remove_at {A : Type} (l : list A) (j : nat) (x : A) :
  nth_error l j = Some x -> insert_at j x (remove_at j l) = l.
Proof.
  intros H.
  assert (L : (j < List.length l)%nat)
    by (apply nth_error_Some; congruence).
  unfold insert_at, remove_at.
  assert (F : List.length (firstn j l) = j)
    by (rewrite length_firstn; lia).
  rewrite firstn_app, skipn_app, F, Nat.sub_diag. simpl.
  rewrite firstn_firstn, Nat.min_id, app_nil_r.
  rewrite (skipn_all2 (firstn j l)) by lia. simpl.
  symmetry. apply nth_error_split_at. exact H.
Qed.

Lemma nth_error_insert_at {A : Type} (l : list A) (j : nat) (x : A) :
  (j <= List.length l)%nat -> nth_error (insert_at j x l) j = Some x.
Proof.
  intros H. unfold insert_at.
  rewrite nth_error_app2; rewrite length_firstn, Nat.min_l by lia; [|lia].
  rewrite Nat.sub_diag. reflexivity.
Qed.

Lemma remove_at_insert_at {A : Type} (l : list A) (j : nat) (x : A) :
  (j <= List.length l)%nat -> remove_at j (insert_at j x l) = l.
Proof.
  intros H. unfold insert_at, remove_at.
  assert (F : List.length (firstn j l) = j)
    by (rewrite length_firstn; lia).
  rewrite firstn_app, skipn_app, F.
  rewrite firstn_firstn, Nat.min_id, Nat.sub_diag.
  rewrite (skipn_all2 (firstn j l)) by lia.
  replace (S j - j)%nat with 1%nat by lia.
  simpl. rewrite app_nil_r. apply firstn_skipn.
Qed.

(** Between two positions of the array [arrayMove] takes the element at
    [from] out and puts it back at [to]. *)
Lemma arrayMove_inside {A : Type} (l : list A) (i j : nat) (x : A) :
  nth_error l i = Some x ->
  (j < List.length l)%nat ->
  arrayMove l (Z.of_nat i) (Z.of_nat j)
  = Some (insert_at j x (remove_at i l)).
Proof.
  intros Hx Hj.
  assert (Hi : (i < List.length l)%nat)
    by (apply nth_error_Some; congruence).
  unfold arrayMove.
  rewrite splice_start_inside by lia. rewrite Hx.
  destruct (Z.of_nat j <? 0) eqn:E; [apply Z.ltb_lt in E; lia|].
  rewrite splice_start_inside; [reflexivity|].
  rewrite remove_at_length; lia.
Qed.

(** What [arrayMove] returns between two positions of the array is the
    relocated sequence: the moved element sits at [to], and without it
    the array reads as the old one without it. *)
Lemma arrayMove_relocates {A : Type} (l : list A) (i j : nat) (x : A) :
  nth_error l i = Some x ->
  (j < List.length l)%nat ->
  exists l',
    arrayMove l (Z.of_nat i) (Z.of_nat j) = Some l'
    /\ nth_error l' j = Some x
    /\ remove_at j l' = remove_at i l.
Proof.
  intros Hx Hj.
  assert (Hi : (i < List.length l)%nat)
    by (apply nth_error_Some; congruence).
  assert (L : (j <= List.length (remove_at i l))%nat)
    by (rewrite remove_at_length; lia).
  exists (insert_at j x (remove_at i l)).
  split; [apply arrayMove_inside; assumption|].
  split; [apply nth_error_insert_at | apply remove_at_insert_at]; exact L.
Qed.

(** The relocated sequence is determined by where the moved element
    lands and by what is left when it is taken out. *)
Lemma relocation_unique {A : Type} (l l' : list A) (i j : nat) (x : A) :
  nth_error l i = Some x ->
  nth_error l' j = Some x ->
  remove_at j l' = remove_at i l ->
  l' = insert_at j x (remove_at i l).
Proof.
  intros Hi Hj Hr. rewrite <- Hr. symmetry.
  apply insert_at_remove_at. exact Hj.
Qed.

(** [arrayMove] called with what [findIndex] returns only fails to put
    an element back on an empty array. *)
Lemma arrayMove_findIndex {A : Type} (p q : A -> bool) (l : list A) :
  l <> [] -> arrayMove l (findIndex p l) (findIndex q l) <> None.
Proof.
  intros Hl. unfold arrayMove.
  pose proof (findIndex_range p l) as R.
  assert (L : (0 < List.length l)%nat)
    by (destruct l; simpl; [congruence | lia]).
  destruct (nth_error l (splice_start (List.length l) (findIndex p l)))
    eqn:E; [discriminate|].
  apply nth_error_None in E. unfold splice_start in E.
  destruct (findIndex p l <? 0) eqn:N.
  - apply Z.ltb_lt in N. lia.
  - apply Z.ltb_ge in N. lia.
Qed.

(** [arrayMove] hands back the elements it was given. *)
Lemma arrayMove_Permutation {A : Type} (l l' : list A) (from to : Z) :
  arrayMove l from to = Some l' -> Permutation l l'.
Proof.
  unfold arrayMove.
  destruct (nth_error l (splice_start (List.length l) from)) as [x|] eqn:E;
    [|discriminate].
  intros H. inversion H; subst l'; clear H.
  rewrite (nth_error_split_at _ _ _ E) at 1.
  unfold insert_at, remove_at.
  set (rest := firstn _ l ++ skipn _ l).
  set (j := splice_start (List.length rest) _).
  apply Permutation_trans with (x :: rest).
  - subst rest. symmetry. apply Permutation_middle.
  - apply Permutation_trans with (x :: (firstn j rest ++ skipn j rest)).
    + rewrite firstn_skipn. reflexivity.
    + apply Permutation_middle.
Qed.

Lemma entries_from_nth {A : Type} (l : list A) (start : Z) (k : nat) (x : A) :
  nth_error l k = Some x ->
  nth_error (entries_from start l) k = Some (start + Z.of_nat k, x).
Proof.
  revert start k. induction l as [|y r IH]; intros start [|k] H;
    simpl in *; try discriminate.
  - inversion H. do 2 f_equal. lia.
  - rewrite (IH (start + 1) k H). do 2 f_equal. lia.
Qed.

(** ** White space *)

Lemma trimStart_blank (s : str) :
  forallb isWhiteSpace s = true -> trimStart s = [].
Proof.
  induction s as [|c r IH]; simpl; [reflexivity|].
  destruct (isWhiteSpace c); simpl; [exact IH | discriminate].
Qed.

Lemma trimStart_nil (s : str) :
  trimStart s = [] -> forallb isWhiteSpace s = true.
Proof.
  induction s as [|c r IH]; simpl; [reflexivity|].
  destruct (isWhiteSpace c); simpl; [exact IH | discriminate].
Qed.

Lemma trimStart_suffix (s : str) :
  exists blank, s = blank ++ trimStart s /\ forallb isWhiteSpace blank = true.
Proof.
  induction s as [|c r [blank [E F]]]; simpl.
  - exists []. auto.
  - destruct (isWhiteSpace c) eqn:W.
    + exists (c :: blank). simpl. rewrite W, F.
      split; [f_equal; exact E | reflexivity].
    + exists []. auto.
Qed.

(** [trim] leaves the empty string exactly of the strings made of white
    space only. *)
Lemma trim_empty (s : str) :
  trim s = [] <-> forallb isWhiteSpace s = true.
Proof.
  unfold trim, trimEnd. split.
  - intros H.
    assert (R : trimStart (rev (trimStart s)) = [])
      by (rewrite <- (rev_involutive (trimStart _)), H; reflexivity).
    apply trimStart_nil in R.
    destruct (trimStart_suffix s) as [blank [E F]].
    rewrite E, forallb_app, F. simpl.
    rewrite forallb_forall in *. intros c Hc. apply R, in_rev.
    rewrite rev_involutive. exact Hc.
  - intros H. rewrite (trimStart_blank s H). reflexivity.
Qed.

(** A string that [trim] does not empty has a character that is not
    white space. *)
Lemma trim_visible (s : str) :
  str_falsy (trim s) = false ->
  existsb (fun c => negb (isWhiteSpace c)) s = true.
Proof.
  intros H.
  destruct (forallb isWhiteSpace s) eqn:F.
  - apply trim_empty in F. rewrite F in H. discriminate.
  - clear H. induction s as [|c r IH]; simpl in *; [discriminate|].
    destruct (isWhiteSpace c); simpl in *; auto.
Qed.

(** ** Handlers *)

Section Properties.

Context {B : Type} {store : Supabase B}.

Ltac unfold_monad :=
  unfold bind, try_catch, ret, throw, throw_if, console_error, setTasks,
    setNewTask, setSelectedTask, setNotes, setSortType, setSortOrder,
    set_state, from_tasks_select, from_tasks_insert, from_tasks_update,
    from_tasks_delete, call in *.

(** One turn of the loop: the call is recorded and served; an error in
    the answer is thrown. *)
Lemma persist_priority_run (e : Z * Task.t) (w : World) :
  persist_priority e w
  = let answer :=
      update_eq (patch_priority (fst e)) (Task.id (snd e)) (remote w) in
    let w' := mkWorld (app w) (snd answer) (issued w ++ [priority_update e])
                      (console w) in
    match fst answer with
    | Some error => (Throw error, w')
    | None => (Return tt, w')
    end.
Proof.
  destruct e as [index task]. unfold persist_priority. unfold_monad. simpl.
  destruct (update_eq (patch_priority index) (Task.id task) (remote w))
    as [[error|] b]; reflexivity.
Qed.

(** While the store accepts the updates the loop goes on, recording one
    call per entry and touching nothing else. *)
Lemma for_of_all_succeed (es : list (Z * Task.t)) (w : World) :
  updates_succeed (remote w) es = true ->
  for_of es persist_priority w
  = (Return tt,
     mkWorld (app w) (serve_updates (remote w) es)
             (issued w ++ map priority_update es) (console w)).
Proof.
  revert w. induction es as [|e r IH]; intros w H; simpl in *.
  - unfold ret. rewrite app_nil_r. destruct w; reflexivity.
  - apply andb_prop in H. destruct H as [H1 H2].
    unfold bind. rewrite persist_priority_run. simpl.
    destruct (fst (update_eq (patch_priority (fst e)) (Task.id (snd e))
                             (remote w))); [discriminate|].
    rewrite IH by exact H2. simpl.
    rewrite <- app_assoc. reflexivity.
Qed.

(** The first update the store refuses ends the loop: the refused call
    is the last one recorded. *)
Lemma for_of_first_failure (es : list (Z * Task.t)) (w : World)
  (k : nat) (e : Z * Task.t) :
  nth_error es k = Some e ->
  updates_succeed (remote w) (firstn k es) = true ->
  fails (priority_update e) (serve_updates (remote w) (firstn k es)) = true ->
  exists error,
    for_of es persist_priority w
    = (Throw error,
       mkWorld (app w)
               (snd (update_eq (patch_priority (fst e)) (Task.id (snd e))
                               (serve_updates (remote w) (firstn k es))))
               (issued w ++ map priority_update (firstn (S k) es))
               (console w)).
Proof.
  revert w k. induction es as [|e0 r IH]; intros w k Hk Hs Hf.
  - destruct k; discriminate.
  - destruct k as [|k]; simpl in *.
    + inversion Hk; subst e0.
      unfold bind. rewrite persist_priority_run. simpl.
      destruct (fst (update_eq (patch_priority (fst e)) (Task.id (snd e))
                               (remote w))) as [error|]; [|discriminate].
      exists error. reflexivity.
    + apply andb_prop in Hs. destruct Hs as [H1 H2].
      unfold bind. rewrite persist_priority_run. simpl.
      destruct (fst (update_eq (patch_priority (fst e0)) (Task.id (snd e0))
                               (remote w))); [discriminate|].
      destruct (IH (mkWorld (app w)
                      (snd (update_eq (patch_priority (fst e0))
                                      (Task.id (snd e0)) (remote w)))
                      (issued w ++ [priority_update e0])
                      (console w)) k Hk H2 Hf) as [error IHe].
      exists error. rewrite IHe. simpl.
      rewrite <- app_assoc. reflexivity.
Qed.

Lemma str_eqb_eq (a b : str) : str_eqb a b = true <-> a = b.
Proof.
  unfold str_eqb. destruct (str_eq_dec a b); split; congruence.
Qed.

Lemma str_eqb_neq (a b : str) : str_eqb a b = false <-> a <> b.
Proof.
  unfold str_eqb. destruct (str_eq_dec a b); split; congruence.
Qed.

(** The world a reorder leaves when the store accepts every update. *)
Lemma handleDragEnd_committed (w : World) (a o : str) (l' : list Task.t) :
  a <> o ->
  arrayMove (tasks (app w)) (findIndex (has_id a) (tasks (app w)))
            (findIndex (has_id o) (tasks (app w))) = Some l' ->
  updates_succeed (remote w) (entries l') = true ->
  dispatch (fun c => handleDragEnd c (mkDragEnd a (Some o))) w
  = mkWorld (mkApp (user (app w)) l' (newTask (app w))
                   (selectedTask (app w)) (notes (app w))
                   (sortType (app w)) (sortOrder (app w)))
            (serve_updates (remote w) (entries l'))
            (issued w ++ map priority_update (entries l'))
            (console w).
Proof.
  intros Hao Hmove Hok. unfold dispatch, handleDragEnd. simpl.
  apply str_eqb_neq in Hao. rewrite Hao. simpl.
  rewrite Hmove. unfold try_catch, bind.
  rewrite (for_of_all_succeed _ _ Hok).
  unfold_monad. reflexivity.
Qed.

(** X3.  Whatever the event and whatever the store answers, a drag only
    rearranges the local task records: none is rebuilt, so each keeps
    the fields, [priority] included, it had when it was fetched. *)
Lemma handleDragEnd_local_records (w : World) (event : DragEndEvent) :
  Permutation (tasks (app w))
              (tasks (app (dispatch (fun c => handleDragEnd c event) w))).
Proof.
  unfold dispatch, handleDragEnd.
  destruct (over event) as [over_id|]; [|reflexivity].
  destruct (negb (str_eqb (active event) over_id)); [|reflexivity].
  unfold try_catch.
  destruct (arrayMove _ _ _) as [newTasks|] eqn:Hmove; [|reflexivity].
  apply arrayMove_Permutation in Hmove. unfold bind.
  assert (Hloop : forall es (v : World),
             app (snd (for_of es persist_priority v)) = app v).
  { induction es as [|e r IH]; intros v; simpl; [reflexivity|].
    unfold bind. rewrite persist_priority_run. simpl.
    destruct (fst (update_eq _ _ (remote v))); simpl; [reflexivity|].
    rewrite IH. reflexivity. }
  specialize (Hloop (entries newTasks) w).
  destruct (for_of (entries newTasks) persist_priority w) as [[[]|e] v];
    simpl in *; unfold_monad; simpl;
    [exact Hmove | rewrite Hloop; reflexivity].
Qed.

(** C1.  A reorder whose updates all succeed.  Let the dragged task be
    at index [i] of the list and the task it is dropped on at index [j],
    and let [l'] be the old sequence with the dragged task relocated to
    position [j]: [l'] has the dragged task at [j], and taking it out
    of [l'] leaves what taking it out of the old sequence leaves, so
    every other task keeps its relative order.  If the store accepts
    the update of every entry of [l'], the handler sends, for each task
    of [l'] in order, one update that sets the [priority] of the row
    with the task's id to the task's 0-based index in [l'], and then
    commits [l'] as the local task list; the store is left as these
    calls left it. *)
Theorem handleDragEnd_reorders :
  forall (w : World) (a o : str) (i j : nat) (dragged : Task.t)
         (l' : list Task.t),
    a <> o ->
    findIndex (has_id a) (tasks (app w)) = Z.of_nat i ->
    findIndex (has_id o) (tasks (app w)) = Z.of_nat j ->
    nth_error (tasks (app w)) i = Some dragged ->
    nth_error l' j = Some dragged ->
    remove_at j l' = remove_at i (tasks (app w)) ->
    updates_succeed (remote w) (entries l') = true ->
    let w' := dispatch (fun c => handleDragEnd c (mkDragEnd a (Some o))) w in
    tasks (app w') = l'
    /\ issued w' = issued w ++ map priority_update (entries l')
    /\ (forall k task,
          nth_error l' k = Some task ->
          nth_error (map priority_update (entries l')) k
          = Some (Update (patch_priority (Z.of_nat k)) (Task.id task)))
    /\ remote w' = serve_updates (remote w) (entries l').
Proof.
  intros w a o i j dragged l' Hao Hi Hj Hd Hd' Hrest Hok w'.
  assert (Hmove : arrayMove (tasks (app w)) (Z.of_nat i) (Z.of_nat j)
                  = Some l').
  { destruct (findIndex_found _ _ _ Hj) as [x [Hx _]].
    rewrite (arrayMove_inside _ i j dragged Hd)
      by (apply nth_error_Some; congruence).
    f_equal. symmetry. eapply relocation_unique; eauto. }
  rewrite <- Hi, <- Hj in Hmove.
  subst w'. rewrite (handleDragEnd_committed w a o l' Hao Hmove Hok). simpl.
  split; [reflexivity|]. split; [reflexivity|]. split; [|reflexivity].
  intros k task Hk. unfold entries.
  rewrite nth_error_map, (entries_from_nth _ _ _ _ Hk). reflexivity.
Qed.

(** C2.  A reorder in which an update fails.  Let [l'] be the sequence
    the handler computes and let the update of its entry number [k] be
    the first one the store answers with an error.  Then the calls the
    handler sends are the updates of the entries [0..k] and no other
    call, the store is left as these calls left it, and the local state
    is what it was before the reorder. *)
Theorem handleDragEnd_aborts :
  forall (w : World) (a o : str) (l' : list Task.t) (k : nat)
         (e : Z * Task.t),
    a <> o ->
    arrayMove (tasks (app w)) (findIndex (has_id a) (tasks (app w)))
              (findIndex (has_id o) (tasks (app w))) = Some l' ->
    nth_error (entries l') k = Some e ->
    updates_succeed (remote w) (firstn k (entries l')) = true ->
    fails (priority_update e)
          (serve_updates (remote w) (firstn k (entries l'))) = true ->
    let w' := dispatch (fun c => handleDragEnd c (mkDragEnd a (Some o))) w in
    app w' = app w
    /\ issued w' = issued w ++ map priority_update (firstn (S k) (entries l'))
    /\ remote w'
       = snd (update_eq (patch_priority (fst e)) (Task.id (snd e))
                (serve_updates (remote w) (firstn k (entries l')))).
Proof.
  intros w a o l' k e Hao Hmove Hk Hok Hfail w'.
  subst w'. unfold dispatch, handleDragEnd. simpl.
  apply str_eqb_neq in Hao. rewrite Hao. simpl.
  rewrite Hmove.
  unfold try_catch, bind.
  destruct (for_of_first_failure _ w _ _ Hk Hok Hfail) as [error He].
  rewrite He. unfold_monad. simpl. auto.
Qed.

Lemma app_one_inv {A : Type} (l : list A) (x y : A) :
  l ++ [x] = l ++ [y] -> x = y.
Proof.
  intros H. apply app_inv_head in H. congruence.
Qed.

Lemma app_one_neq {A : Type} (l : list A) (x : A) : l <> l ++ [x].
Proof.
  intros H. apply (f_equal (@List.length A)) in H.
  rewrite length_app in H. simpl in H. lia.
Qed.

(** C3.  A data operation (fetch, insert, delete, notes update) whose
    call to the store is answered with an error leaves the local state
    (task list, selection, notes buffer, new-task input and the rest)
    exactly as it was. *)
Theorem failed_operation_keeps_state :
  forall (w : World) (op : DataOperation) (rq : Request),
    issued (run_operation op w) = issued w ++ [rq] ->
    fails rq (remote w) = true ->
    app (run_operation op w) = app w.
Proof.
  intros w op rq Hrq Hfail.
  destruct op as [| |id|newNotes]; unfold run_operation, dispatch in *.
  - unfold fetchTasks in *. destruct (user (app w)); [|reflexivity].
    unfold_monad.
    destruct (select_order _ _ (remote w)) as [[error|data] b] eqn:E;
      simpl in *; [reflexivity|].
    apply app_one_inv in Hrq. subst rq. simpl in Hfail.
    rewrite E in Hfail. discriminate.
  - unfold addTask in *.
    destruct (str_falsy (trim (newTask (app w)))); [reflexivity|].
    destruct (user (app w)) as [u|]; [|reflexivity].
    unfold_monad.
    destruct (insert_single _ (remote w)) as [[error|data] b] eqn:E;
      simpl in *; [reflexivity|].
    apply app_one_inv in Hrq. subst rq. simpl in Hfail.
    rewrite E in Hfail. discriminate.
  - unfold removeTask in *. unfold_monad.
    destruct (delete_eq id (remote w)) as [[error|] b] eqn:E;
      simpl in *; [reflexivity|].
    assert (Hrq' : rq = Delete id).
    { destruct (selectedTask (app w)) as [sel|]; simpl in Hrq;
        [destruct (has_id id sel); simpl in Hrq|];
        apply app_one_inv in Hrq; congruence. }
    subst rq. simpl in Hfail. rewrite E in Hfail. discriminate.
  - unfold updateNotes in *.
    destruct (selectedTask (app w)) as [sel|]; [|reflexivity].
    unfold_monad.
    destruct (update_eq _ _ (remote w)) as [[error|] b] eqn:E;
      simpl in *; [reflexivity|].
    apply app_one_inv in Hrq. subst rq. simpl in Hfail.
    rewrite E in Hfail. discriminate.
Qed.

(** C4.  A delete of the task with id [x] that the store accepts removes
    every task with that id from the local list and keeps the others in
    order.  When the selected task has id [x] the selection becomes
    [null] and the notes buffer the empty string; when no task with id
    [x] is selected, selection and notes buffer stay as they are. *)
Theorem removeTask_clears_selection :
  forall (w : World) (x : str),
    fails (Delete x) (remote w) = false ->
    let w' := dispatch (fun c => removeTask c x) w in
    tasks (app w')
    = filter (fun task => negb (has_id x task)) (tasks (app w))
    /\ ~ In x (map Task.id (tasks (app w')))
    /\ (forall sel,
          selectedTask (app w) = Some sel -> Task.id sel = x ->
          selectedTask (app w') = None /\ notes (app w') = [])
    /\ ((forall sel, selectedTask (app w) = Some sel -> Task.id sel <> x) ->
        selectedTask (app w') = selectedTask (app w)
        /\ notes (app w') = notes (app w)).
Proof.
  intros w x Hok w'. subst w'. unfold dispatch, removeTask.
  simpl in Hok. unfold_monad.
  destruct (delete_eq x (remote w)) as [[error|] b] eqn:E;
    simpl in *; [discriminate|].
  assert (Hgone : ~ In x (map Task.id
            (filter (fun task => negb (has_id x task)) (tasks (app w))))).
  { intros Hin. apply in_map_iff in Hin. destruct Hin as [t [Ht Hin]].
    apply filter_In in Hin. destruct Hin as [_ Hn].
    unfold has_id in Hn. apply (proj2 (str_eqb_eq _ _)) in Ht.
    rewrite Ht in Hn. discriminate. }
  destruct (selectedTask (app w)) as [sel|] eqn:S; simpl.
  - destruct (has_id x sel) eqn:Hsel; simpl;
      (split; [reflexivity|]); (split; [exact Hgone|]); split.
    + auto.
    + intros Hne. exfalso. apply (Hne sel eq_refl).
      apply str_eqb_eq. exact Hsel.
    + intros s Hs Hid. inversion Hs; subst s.
      apply (proj2 (str_eqb_eq _ _)) in Hid. unfold has_id in Hsel.
      congruence.
    + auto.
  - split; [reflexivity|]. split; [exact Hgone|]. split.
    + intros s Hs. discriminate.
    + auto.
Qed.

(** C7.  A task creation whose insert the store accepts.  With a text
    that [trim] does not empty and a user signed in, [addTask] sends
    one insert whose record has the entered text, empty notes, the
    number of tasks in the local list as priority and the id of the
    session user.  When the store accepts it, the row the store
    returns is appended to the end of the local list and the new-task
    input is emptied. *)
Theorem addTask_appends :
  forall (w : World) (u : User.t),
    trim (newTask (app w)) <> [] ->
    user (app w) = Some u ->
    let row := mkNewRow (newTask (app w)) []
                        (Z.of_nat (List.length (tasks (app w))))
                        (User.id u) in
    fails (Insert row) (remote w) = false ->
    exists created : Task.t,
      fst (insert_single row (remote w)) = inr created
      /\ issued (dispatch addTask w) = issued w ++ [Insert row]
      /\ tasks (app (dispatch addTask w)) = tasks (app w) ++ [created]
      /\ newTask (app (dispatch addTask w)) = [].
Proof.
  intros w u Htext Hu row Hok. unfold dispatch, addTask.
  destruct (trim (newTask (app w))) as [|c r] eqn:T; [congruence|].
  simpl str_falsy. cbv iota. rewrite Hu. fold row.
  unfold_monad. simpl in Hok.
  destruct (insert_single row (remote w)) as [[error|data] b] eqn:E;
    simpl in *; [discriminate|].
  exists data. rewrite E. simpl. repeat split.
Qed.

(** C8.  A notes edit while a task is selected sends exactly one call,
    the update of the notes of the row with the selected task's id.
    When the store accepts it the local list keeps its length and, index
    by index, a task with another id is unchanged and a task with the
    selected id only has its notes replaced by the new text. *)
Theorem updateNotes_frame :
  forall (w : World) (sel : Task.t) (newNotes : str),
    selectedTask (app w) = Some sel ->
    let w' := dispatch (fun c => updateNotes c newNotes) w in
    issued w' = issued w ++ [Update (patch_notes newNotes) (Task.id sel)]
    /\ (fails (Update (patch_notes newNotes) (Task.id sel)) (remote w)
        = false ->
        List.length (tasks (app w')) = List.length (tasks (app w))
        /\ forall k task,
             nth_error (tasks (app w)) k = Some task ->
             exists task',
               nth_error (tasks (app w')) k = Some task'
               /\ Task.id task' = Task.id task
               /\ Task.text task' = Task.text task
               /\ Task.priority task' = Task.priority task
               /\ Task.user_id task' = Task.user_id task
               /\ Task.created_at task' = Task.created_at task
               /\ (Task.id task = Task.id sel -> Task.notes task' = newNotes)
               /\ (Task.id task <> Task.id sel -> task' = task)).
Proof.
  intros w sel newNotes Hsel w'. subst w'. unfold dispatch, updateNotes.
  rewrite Hsel. unfold_monad. simpl.
  destruct (update_eq (patch_notes newNotes) (Task.id sel) (remote w))
    as [[error|] b] eqn:E; simpl.
  - split; [reflexivity | discriminate].
  - split; [reflexivity|]. intros _. split; [apply length_map|].
    intros k task Hk. rewrite nth_error_map, Hk. simpl.
    unfold has_id. destruct (str_eqb (Task.id task) (Task.id sel)) eqn:Q.
    + eexists. split; [reflexivity|]. simpl. repeat split; auto.
      intros Hne. apply str_eqb_eq in Q. contradiction.
    + eexists. split; [reflexivity|]. repeat split; auto.
      intros Heq. apply str_eqb_neq in Q. contradiction.
Qed.

(** C5.  The sort toggle.  From priority mode it goes to age mode with
    descending order.  In age mode it stays in age mode and only
    reverses the direction, every other cell of the state keeping its
    value.  So after any number of toggles, one or more, the mode is
    age, and the first toggle out of priority mode gives descending
    age order. *)
Theorem toggleSort_cycle :
  forall (w : @World B),
    let w' := dispatch toggleSort w in
    (sortType (app w) = priority ->
     sortType (app w') = age /\ sortOrder (app w') = desc)
    /\ (sortType (app w) = age ->
        app w'
        = mkApp (user (app w)) (tasks (app w)) (newTask (app w))
                (selectedTask (app w)) (notes (app w)) age
                (match sortOrder (app w) with asc => desc | desc => asc end))
    /\ (forall n : nat,
          sortType (app (Nat.iter (S n) (dispatch toggleSort) w)) = age).
Proof.
  intros w w'. subst w'.
  assert (Hage : forall v : @World B,
             sortType (app (dispatch toggleSort v)) = age).
  { intros v. unfold dispatch, toggleSort.
    destruct (sortType (app v)) eqn:T; unfold_monad; simpl; auto. }
  split; [|split].
  - intros T. unfold dispatch, toggleSort. rewrite T. unfold_monad.
    simpl. auto.
  - intros T. unfold dispatch, toggleSort. rewrite T. unfold_monad.
    simpl. rewrite T. reflexivity.
  - intros n. simpl. apply Hage.
Qed.

Lemma findIndex_absent (l : list Task.t) (x : str) :
  findIndex (has_id x) l = -1 <-> ~ In x (map Task.id l).
Proof.
  split.
  - intros H Hin. destruct (findIndex_In l x Hin) as [i Hi]. lia.
  - intros H. apply findIndex_missing. apply forallb_forall.
    intros t Ht. unfold has_id.
    destruct (str_eqb (Task.id t) x) eqn:Q; [|reflexivity].
    apply str_eqb_eq in Q. exfalso. apply H. apply in_map_iff.
    exists t. auto.
Qed.

Lemma at_index_inside {A : Type} (l : list A) (i : Z) :
  0 <= i < Z.of_nat (List.length l) -> at_index l i <> None.
Proof.
  intros H. unfold at_index.
  destruct (i <? 0) eqn:E; [apply Z.ltb_lt in E; lia|].
  apply nth_error_Some. lia.
Qed.

(** C9.  Navigation to the adjacent task wraps around.  With the
    selected task found at index [i] of the list, [next] gives the task
    at index [(i + 1) mod length] and [prev] the task at index
    [(i - 1 + length) mod length], and both exist.  The result is
    [null] exactly when no task is selected, the list is empty, or no
    task of the list has the selected task's id. *)
Theorem getAdjacentTask_wraps :
  forall (c : App),
    (forall (sel : Task.t) (i : nat),
        selectedTask c = Some sel ->
        findIndex (has_id (Task.id sel)) (tasks c) = Z.of_nat i ->
        let n := Z.of_nat (List.length (tasks c)) in
        getAdjacentTask c next = at_index (tasks c) ((Z.of_nat i + 1) mod n)
        /\ getAdjacentTask c prev
           = at_index (tasks c) ((Z.of_nat i - 1 + n) mod n)
        /\ getAdjacentTask c next <> None
        /\ getAdjacentTask c prev <> None)
    /\ (forall direction : Direction,
          getAdjacentTask c direction = None
          <-> selectedTask c = None
              \/ tasks c = []
              \/ exists sel, selectedTask c = Some sel
                             /\ ~ In (Task.id sel) (map Task.id (tasks c))).
Proof.
  intros c.
  assert (Hfound : forall sel i direction,
             selectedTask c = Some sel ->
             findIndex (has_id (Task.id sel)) (tasks c) = Z.of_nat i ->
             let n := Z.of_nat (List.length (tasks c)) in
             getAdjacentTask c direction
             = at_index (tasks c)
                 (match direction with
                  | next => (Z.of_nat i + 1) mod n
                  | prev => (Z.of_nat i - 1 + n) mod n
                  end)
             /\ getAdjacentTask c direction <> None).
  { intros sel i direction Hsel Hi n.
    pose proof (findIndex_range (has_id (Task.id sel)) (tasks c)) as R.
    assert (Hn : 0 < n) by (subst n; lia).
    assert (E : getAdjacentTask c direction
                = at_index (tasks c)
                    (match direction with
                     | next => (Z.of_nat i + 1) mod n
                     | prev => (Z.of_nat i - 1 + n) mod n
                     end)).
    { unfold getAdjacentTask. rewrite Hsel, Hi. fold n.
      destruct (n =? 0) eqn:N0; [apply Z.eqb_eq in N0; lia|].
      destruct (Z.of_nat i =? -1) eqn:N1; [apply Z.eqb_eq in N1; lia|].
      unfold js_rem. destruct direction;
        rewrite Z.rem_mod_nonneg by lia; reflexivity. }
    split; [exact E|]. rewrite E. apply at_index_inside. fold n.
    destruct direction; apply Z.mod_pos_bound; lia. }
  split.
  - intros sel i Hsel Hi n.
    destruct (Hfound sel i next Hsel Hi) as [N1 N2].
    destruct (Hfound sel i prev Hsel Hi) as [P1 P2].
    auto.
  - intros direction. split.
    + intros H. destruct (selectedTask c) as [sel|] eqn:Hsel; [|auto].
      destruct (tasks c) as [|t r] eqn:Ht; [auto|].
      right. right. exists sel. split; [reflexivity|].
      rewrite <- Ht in *. apply findIndex_absent.
      pose proof (findIndex_range (has_id (Task.id sel)) (tasks c)) as R.
      destruct (Z.eq_dec (findIndex (has_id (Task.id sel)) (tasks c)) (-1))
        as [E|E]; [exact E|].
      exfalso.
      destruct (Hfound sel
                  (Z.to_nat (findIndex (has_id (Task.id sel)) (tasks c)))
                  direction eq_refl) as [_ Hsome]; [lia|].
      contradiction.
    + intros [H|[H|[sel [Hsel H]]]]; unfold getAdjacentTask.
      * rewrite H. reflexivity.
      * rewrite H. destruct (selectedTask c); reflexivity.
      * rewrite Hsel. apply findIndex_absent in H. rewrite H.
        destruct (Z.of_nat (List.length (tasks c)) =? 0); reflexivity.
Qed.

(** The loop of [handleDragEnd] only sends updates. *)
Lemma for_of_visible (es : list (Z * Task.t)) (w : World) :
  forallb visible_text (issued w) = true ->
  forallb visible_text (issued (snd (for_of es persist_priority w))) = true.
Proof.
  revert w. induction es as [|e r IH]; intros w H; simpl; [exact H|].
  unfold bind. rewrite persist_priority_run. simpl.
  destruct (fst (update_eq (patch_priority (fst e)) (Task.id (snd e))
                           (remote w))); simpl.
  - rewrite forallb_app, H. reflexivity.
  - apply IH. simpl. rewrite forallb_app, H. reflexivity.
Qed.

(** No handler sends an insert whose text is blank. *)
Lemma perform_visible (w : World) (a : Action) :
  forallb visible_text (issued w) = true ->
  forallb visible_text (issued (perform w a)) = true.
Proof.
  intros H. destruct a as [| |id|newNotes|event| |change]; simpl;
    unfold dispatch.
  - unfold fetchTasks. destruct (user (app w)); [|exact H]. unfold_monad.
    destruct (select_order _ _ (remote w)) as [[error|data] b]; simpl;
      rewrite forallb_app, H; reflexivity.
  - unfold addTask.
    destruct (str_falsy (trim (newTask (app w)))) eqn:T; [exact H|].
    destruct (user (app w)); [|exact H]. unfold_monad.
    destruct (insert_single _ (remote w)) as [[error|data] b]; simpl;
      rewrite forallb_app, H; simpl; rewrite (trim_visible _ T);
      reflexivity.
  - unfold removeTask. unfold_monad.
    destruct (delete_eq id (remote w)) as [[error|] b]; simpl.
    + rewrite forallb_app, H. reflexivity.
    + destruct (selectedTask (app w)) as [sel|]; simpl;
        [destruct (has_id id sel); simpl|];
        rewrite forallb_app, H; reflexivity.
  - unfold updateNotes. destruct (selectedTask (app w)); [|exact H].
    unfold_monad.
    destruct (update_eq _ _ (remote w)) as [[error|] b]; simpl;
      rewrite forallb_app, H; reflexivity.
  - unfold handleDragEnd. destruct (over event) as [over_id|]; [|exact H].
    destruct (negb (str_eqb (active event) over_id)); [|exact H].
    unfold try_catch.
    destruct (arrayMove _ _ _) as [newTasks|]; [|exact H].
    unfold bind.
    pose proof (for_of_visible (entries newTasks) w H) as V.
    destruct (for_of (entries newTasks) persist_priority w) as [[[]|e] v];
      simpl in *; exact V.
  - unfold toggleSort. destruct (sortType (app w)); exact H.
  - exact H.
Qed.

(** C10.  Task creation is guarded.  When the new-task text is empty or
    made of white space only, or no user is signed in, [addTask] does
    nothing: no call is sent and the world, local state included, is
    unchanged.  Consequently, in whatever order the handlers run, every
    insert the client has sent carries a text with a character that is
    not white space. *)
Theorem addTask_guarded :
  (forall w : World,
      forallb isWhiteSpace (newTask (app w)) = true \/ user (app w) = None ->
      dispatch addTask w = w)
  /\ (forall (w : World) (actions : list Action),
         forallb visible_text (issued w) = true ->
         forallb visible_text (issued (run w actions)) = true).
Proof.
  split.
  - intros w [H|H]; unfold dispatch, addTask.
    + apply trim_empty in H. rewrite H. reflexivity.
    + rewrite H. destruct (str_falsy _); reflexivity.
  - intros w actions. revert w. unfold run.
    induction actions as [|a r IH]; intros w H; simpl; [exact H|].
    apply IH, perform_visible, H.
Qed.

End Properties.

(** C6.  The age label at its boundaries, whatever the creation time and
    whatever part of a minute [r] has gone by on top: 0 minutes gives
    [Just now], 59 minutes [59 minutes ago], 60 minutes [1 hour ago],
    23 hours 59 minutes [23 hours ago], 24 hours [1 day ago] and 30 days
    [1 month ago]. *)
Theorem formatTaskAge_boundaries :
  forall (created r : Z),
    0 <= r < 60000 ->
    let minutes (m : Z) := created + m * 60000 + r in
    formatTaskAge (minutes 0) created = "Just now"%string
    /\ formatTaskAge (minutes 59) created = "59 minutes ago"%string
    /\ formatTaskAge (minutes 60) created = "1 hour ago"%string
    /\ formatTaskAge (minutes (23 * 60 + 59)) created = "23 hours ago"%string
    /\ formatTaskAge (minutes (24 * 60)) created = "1 day ago"%string
    /\ formatTaskAge (minutes (30 * 24 * 60)) created = "1 month ago"%string.
Proof.
  intros created r Hr minutes.
  assert (D : forall m, (minutes m - created) / (1000 * 60) = m).
  { intros m. subst minutes. simpl.
    replace (created + m * 60000 + r - created) with (r + m * 60000) by lia.
    rewrite Z.div_add by lia. rewrite Z.div_small by lia. lia. }
  unfold formatTaskAge. rewrite !D. repeat split; reflexivity.
Qed.

(** ** The table-backed store after a reorder *)

Lemma Db_update_accepted (patch : Patch) (id : str) (db : Db.t) :
  fst (Db.update patch id db) = None ->
  Db.rows (snd (Db.update patch id db))
  = map (fun row => if has_id id row then Db.apply_patch patch row else row)
        (Db.rows db).
Proof.
  unfold Db.update, Db.tick.
  destruct (Db.faults db) as [|[|] r]; simpl; intros H;
    try discriminate; reflexivity.
Qed.

Lemma apply_patch_id (patch : Patch) (row : Task.t) :
  Task.id (Db.apply_patch patch row) = Task.id row.
Proof. destruct patch; reflexivity. Qed.

(** Accepted updates rewrite rows in place: a row keeps its id, and a
    row none of the updates names is left as it is. *)
Lemma Db_serve_updates_rows (es : list (Z * Task.t)) (db : Db.t) :
  updates_succeed db es = true ->
  exists f : Task.t -> Task.t,
    Db.rows (serve_updates db es) = map f (Db.rows db)
    /\ (forall row, Task.id (f row) = Task.id row)
    /\ (forall row,
          ~ In (Task.id row) (map (fun e => Task.id (snd e)) es) ->
          f row = row).
Proof.
  revert db. induction es as [|e r IH]; intros db H; simpl in *.
  - exists (fun row => row). rewrite map_id. auto.
  - apply andb_prop in H. destruct H as [H1 H2].
    destruct (IH _ H2) as [f [Hf [Hid Hfix]]].
    assert (Hacc : fst (Db.update (patch_priority (fst e))
                                  (Task.id (snd e)) db) = None).
    { destruct (fst (Db.update _ _ db)); [discriminate | reflexivity]. }
    exists (fun row =>
              f (if has_id (Task.id (snd e)) row
                 then Db.apply_patch (patch_priority (fst e)) row
                 else row)).
    split; [|split].
    + rewrite Hf, (Db_update_accepted _ _ _ Hacc), map_map. reflexivity.
    + intros row. rewrite Hid.
      destruct (has_id _ row); [apply apply_patch_id | reflexivity].
    + intros row Hn. unfold has_id.
      destruct (str_eqb (Task.id row) (Task.id (snd e))) eqn:Q.
      * apply str_eqb_eq in Q. exfalso. apply Hn. left. congruence.
      * apply Hfix. intros Hin. apply Hn. right. exact Hin.
Qed.

(** When the updates name each row once, every row they name ends with
    the priority its update carries. *)
Lemma Db_rows_after_updates (es : list (Z * Task.t)) (db : Db.t) :
  updates_succeed db es = true ->
  NoDup (map (fun e => Task.id (snd e)) es) ->
  forall e row,
    In e es ->
    In row (Db.rows (serve_updates db es)) ->
    Task.id row = Task.id (snd e) ->
    Task.priority row = fst e.
Proof.
  revert db. induction es as [|e0 r IH]; intros db H Hnd e row He Hrow Hid;
    simpl in *; [contradiction|].
  apply andb_prop in H. destruct H as [H1 H2].
  inversion Hnd as [|x xs Hfresh Hnd']; subst.
  destruct He as [He|He].
  - subst e0.
    assert (Hacc : fst (Db.update (patch_priority (fst e))
                                  (Task.id (snd e)) db) = None).
    { destruct (fst (Db.update _ _ db)); [discriminate | reflexivity]. }
    destruct (Db_serve_updates_rows _ _ H2) as [f [Hf [Hfid Hfix]]].
    rewrite Hf in Hrow. apply in_map_iff in Hrow.
    destruct Hrow as [row1 [Hrow1 Hin1]].
    rewrite (Db_update_accepted _ _ _ Hacc) in Hin1.
    apply in_map_iff in Hin1. destruct Hin1 as [row0 [Hrow0 _]].
    assert (Hid1 : Task.id row1 = Task.id (snd e))
      by (rewrite <- Hid, <- Hrow1, Hfid; reflexivity).
    assert (Hid0 : has_id (Task.id (snd e)) row0 = true).
    { unfold has_id. apply str_eqb_eq. rewrite <- Hid1, <- Hrow0.
      destruct (has_id _ row0);
        [rewrite apply_patch_id; reflexivity | reflexivity]. }
    rewrite Hid0 in Hrow0.
    rewrite <- Hrow1, Hfix by (rewrite Hid1; exact Hfresh).
    rewrite <- Hrow0. reflexivity.
  - apply (IH _ H2 Hnd' e row He Hrow Hid).
Qed.

(** On the table-backed store, with a local list whose ids are
    distinct, a reorder whose updates are all accepted leaves every
    stored row of a listed task with the task's index in the new
    sequence as its priority. *)
Lemma Db_reorder_priorities (w : @World Db.t) (a o : str)
  (l' : list Task.t) :
  a <> o ->
  arrayMove (tasks (app w)) (findIndex (has_id a) (tasks (app w)))
            (findIndex (has_id o) (tasks (app w))) = Some l' ->
  updates_succeed (remote w) (entries l') = true ->
  NoDup (map Task.id l') ->
  forall k task row,
    nth_error l' k = Some task ->
    In row (Db.rows (remote (dispatch
                            (fun c => handleDragEnd c (mkDragEnd a (Some o)))
                            w))) ->
    Task.id row = Task.id task ->
    Task.priority row = Z.of_nat k.
Proof.
  intros Hao Hmove Hok Hnd k task row Hk Hrow Hid.
  rewrite (handleDragEnd_committed w a o l' Hao Hmove Hok) in Hrow.
  simpl in Hrow.
  assert (Hids : forall (l : list Task.t) start,
             map (fun e => Task.id (snd e)) (entries_from start l)
             = map Task.id l).
  { induction l as [|t r IH]; intros start; simpl; [reflexivity|].
    rewrite IH. reflexivity. }
  apply (Db_rows_after_updates (entries l') (remote w) Hok) with
    (e := (Z.of_nat k, task)) (row := row); auto.
  - unfold entries. rewrite Hids. exact Hnd.
  - apply nth_error_In with k. unfold entries.
    rewrite (entries_from_nth _ _ _ _ Hk). reflexivity.
Qed.

(** The label away from the boundaries. *)
Example formatTaskAge_90_minutes :
  formatTaskAge (90 * 60000) 0 = "1 hour ago"%string.
Proof. reflexivity. Qed.

Example formatTaskAge_400_days :
  formatTaskAge (400 * 86400000) 0 = "13 months ago"%string.
Proof. reflexivity. Qed.

(** A creation time in the future still reads as [Just now]. *)
Example formatTaskAge_future :
  formatTaskAge 0 (5 * 60000) = "Just now"%string.
Proof. reflexivity. Qed.

(** ** The properties on the sample session *)

Import Sample.

(** Dragging the first task onto the last one, with a store that
    accepts every call. *)
Lemma handleDragEnd_reorders_witness :
  let w := world [] in
  let l' := [rent; call_mum; milk] in
  let w' := dispatch (fun c => handleDragEnd c (drag "t1" "t3")) w in
  updates_succeed (remote w) (entries l') = true
  /\ tasks (app w') = l'
  /\ issued w'
     = [Update (patch_priority 0) (lit "t2");
        Update (patch_priority 1) (lit "t3");
        Update (patch_priority 2) (lit "t1")].
Proof.
  intros w l' w'.
  destruct (handleDragEnd_reorders w (lit "t1") (lit "t3") 0 2 milk l')
    as [H1 [H2 _]]; try reflexivity.
  - intros E. vm_compute in E. discriminate E.
  - split; [reflexivity|]. split; [exact H1 | exact H2].
Defined.

(** Dragging the last task onto the first one, with a store that
    refuses the second call. *)
Lemma handleDragEnd_aborts_witness :
  let w := world [false; true] in
  let w' := dispatch (fun c => handleDragEnd c (drag "t3" "t1")) w in
  app w' = app w
  /\ issued w'
     = [Update (patch_priority 0) (lit "t3");
        Update (patch_priority 1) (lit "t1")]
  /\ map Task.priority (Db.rows (remote w')) = [0; 1; 0].
Proof.
  intros w w'.
  destruct (handleDragEnd_aborts w (lit "t3") (lit "t1")
              [call_mum; milk; rent] 1 (1, milk))
    as [H1 [H2 _]]; try reflexivity.
  - intros E. vm_compute in E. discriminate E.
  - split; [exact H1|]. split; [exact H2 | reflexivity].
Defined.

(** Each data operation against a store that refuses the call. *)
Lemma failed_operation_keeps_state_witness :
  let w := world [true] in
  app (run_operation op_fetch w) = app w
  /\ app (run_operation op_insert w) = app w
  /\ app (run_operation (op_delete (lit "t2")) w) = app w
  /\ app (run_operation (op_notes_update (lit "paid")) w) = app w.
Proof.
  intros w. split; [|split; [|split]].
  - apply (failed_operation_keeps_state w op_fetch
             (Select priority_column true)); reflexivity.
  - apply (failed_operation_keeps_state w op_insert
             (Insert (mkNewRow (lit "water plants") [] 3 (lit "ann"))));
      reflexivity.
  - apply (failed_operation_keeps_state w (op_delete (lit "t2"))
             (Delete (lit "t2"))); reflexivity.
  - apply (failed_operation_keeps_state w (op_notes_update (lit "paid"))
             (Update (patch_notes (lit "paid")) (lit "t2"))); reflexivity.
Defined.

(** Deleting the selected task, and deleting another one. *)
Lemma removeTask_clears_selection_witness :
  let w := world [] in
  let selected := dispatch (fun c => removeTask c (lit "t2")) w in
  let other := dispatch (fun c => removeTask c (lit "t1")) w in
  (tasks (app selected) = [milk; call_mum]
   /\ selectedTask (app selected) = None /\ notes (app selected) = [])
  /\ (tasks (app other) = [rent; call_mum]
      /\ selectedTask (app other) = Some rent
      /\ notes (app other) = lit "due *Friday*").
Proof.
  intros w selected other. split.
  - destruct (removeTask_clears_selection w (lit "t2"))
      as [H1 [_ [H2 _]]]; [reflexivity|].
    split; [exact H1|]. apply (H2 rent); reflexivity.
  - destruct (removeTask_clears_selection w (lit "t1"))
      as [H1 [_ [_ H2]]]; [reflexivity|].
    split; [exact H1|]. apply H2.
    intros sel Hsel E. inversion Hsel; subst sel.
    vm_compute in E. discriminate E.
Defined.

(** One toggle out of priority mode, and a second one. *)
Lemma toggleSort_cycle_witness :
  let w := world [] in
  let once := dispatch toggleSort w in
  let twice := dispatch toggleSort once in
  (sortType (app once) = age /\ sortOrder (app once) = desc)
  /\ (sortType (app twice) = age /\ sortOrder (app twice) = asc).
Proof.
  intros w once twice. split.
  - destruct (toggleSort_cycle w) as [H _]. apply H. reflexivity.
  - destruct (toggleSort_cycle once) as [_ [H _]].
    unfold twice. rewrite H by reflexivity. split; reflexivity.
Defined.

(** A task created at midnight, read half a minute past each
    boundary. *)
Lemma formatTaskAge_boundaries_witness :
  formatTaskAge 30000 0 = "Just now"%string
  /\ formatTaskAge (59 * 60000 + 30000) 0 = "59 minutes ago"%string
  /\ formatTaskAge (60 * 60000 + 30000) 0 = "1 hour ago"%string
  /\ formatTaskAge ((23 * 60 + 59) * 60000 + 30000) 0
     = "23 hours ago"%string
  /\ formatTaskAge (24 * 60 * 60000 + 30000) 0 = "1 day ago"%string
  /\ formatTaskAge (30 * 24 * 60 * 60000 + 30000) 0 = "1 month ago"%string.
Proof.
  apply (formatTaskAge_boundaries 0 30000). lia.
Defined.

(** Creating the task typed in the sample session. *)
Lemma addTask_appends_witness :
  let w := world [] in
  let created :=
    Task.mk (lit "t4") (lit "water plants") [] 3 (lit "ann")
            (lit "2025-04-10T08:00:00Z") in
  issued (dispatch addTask w)
  = [Insert (mkNewRow (lit "water plants") [] 3 (lit "ann"))]
  /\ tasks (app (dispatch addTask w)) = [milk; rent; call_mum; created]
  /\ newTask (app (dispatch addTask w)) = [].
Proof.
  intros w created.
  destruct (addTask_appends w ann) as [row [Hrow [H1 [H2 H3]]]].
  - intros E. vm_compute in E. discriminate E.
  - reflexivity.
  - reflexivity.
  - vm_compute in Hrow. inversion Hrow; subst row.
    split; [exact H1|]. split; [exact H2 | exact H3].
Defined.

(** Editing the notes of the selected task. *)
Lemma updateNotes_frame_witness :
  let w := world [] in
  let w' := dispatch (fun c => updateNotes c (lit "paid")) w in
  issued w' = [Update (patch_notes (lit "paid")) (lit "t2")]
  /\ List.length (tasks (app w')) = 3%nat.
Proof.
  intros w w'.
  destruct (updateNotes_frame w rent (lit "paid")) as [H1 H2];
    [reflexivity|].
  split; [exact H1|].
  destruct H2 as [H3 _]; [reflexivity | exact H3].
Defined.

(** From the middle task of three, and with nothing selected. *)
Lemma getAdjacentTask_wraps_witness :
  (getAdjacentTask state next = Some call_mum
   /\ getAdjacentTask state prev = Some milk)
  /\ getAdjacentTask
       (mkApp (Some ann) [milk; rent] [] None [] priority asc) next = None.
Proof.
  split.
  - destruct (getAdjacentTask_wraps state) as [H _].
    destruct (H rent 1%nat) as [H1 [H2 _]]; try reflexivity.
    rewrite H1, H2. split; reflexivity.
  - destruct (getAdjacentTask_wraps
                (mkApp (Some ann) [milk; rent] [] None [] priority asc))
      as [_ H].
    apply H. left. reflexivity.
Defined.

(** A blank input, and a run of the handlers. *)
Lemma addTask_guarded_witness :
  let blank :=
    mkWorld (mkApp (Some ann) [milk] (lit "   ") None [] priority asc)
            (db []) [] [] in
  dispatch addTask blank = blank
  /\ forallb visible_text
       (issued (run (world [])
                    [Add; Local (fun s => mkApp (user s) (tasks s)
                                   (lit " ") (selectedTask s) (notes s)
                                   (sortType s) (sortOrder s));
                     Add; Remove (lit "t1"); Fetch]))
     = true.
Proof.
  intros blank. destruct (@addTask_guarded Db.t Db.client) as [H1 H2].
  split.
  - apply H1. left. reflexivity.
  - apply H2. reflexivity.
Defined.


(** * More properties of the component *)

(** ** The age label *)

Lemma string_of_uint_head (d : Decimal.uint) :
  exists c r, NilZero.string_of_uint d = String c r /\ c <> "J"%char.
Proof.
  destruct d; simpl; eexists; eexists; (split; [reflexivity | discriminate]).
Qed.

(** The text of a positive number starts with a digit. *)
Lemma number_to_string_head (n : Z) :
  1 <= n ->
  exists c r, number_to_string n = String c r /\ c <> "J"%char.
Proof.
  intros H. destruct n as [|p|p]; try lia.
  unfold number_to_string. simpl. apply string_of_uint_head.
Qed.

Lemma ago_not_just_now (n : Z) (unit : string) :
  1 <= n -> ago n unit <> "Just now"%string.
Proof.
  intros H E. destruct (number_to_string_head n H) as [c [r [Hn Hc]]].
  unfold ago in E. rewrite Hn in E. simpl in E. inversion E. contradiction.
Qed.

(** X1.  The label is [Just now] exactly while less than a minute has gone
    by since the creation time; a creation time in the future counts as
    less than a minute. *)
Theorem formatTaskAge_just_now :
  forall now created : Z,
    formatTaskAge now created = "Just now"%string <-> now - created < 60000.
Proof.
  intros now created. unfold formatTaskAge.
  change (1000 * 60) with 60000.
  set (m := (now - created) / 60000).
  assert (Hm : m < 1 <-> now - created < 60000).
  { subst m. split; intros H.
    - destruct (Z.lt_ge_cases (now - created) 60000) as [L|L]; [exact L|].
      assert (1 <= (now - created) / 60000)
        by (apply Z.div_le_lower_bound; lia).
      lia.
    - apply Z.div_lt_upper_bound; lia. }
  destruct (m <? 60) eqn:M60.
  - destruct (m <? 1) eqn:M1.
    + apply Z.ltb_lt in M1. tauto.
    + apply Z.ltb_ge in M1. split; [|lia].
      intros E. exfalso. exact (ago_not_just_now m _ M1 E).
  - apply Z.ltb_ge in M60. split; [|lia]. intros E. exfalso.
    destruct (m / 60 <? 24) eqn:H24.
    + refine (ago_not_just_now _ _ _ E).
      apply Z.div_le_lower_bound; lia.
    + apply Z.ltb_ge in H24.
      destruct (m / 60 / 24 <? 30) eqn:D30.
      * refine (ago_not_just_now _ _ _ E).
        apply Z.div_le_lower_bound; lia.
      * apply Z.ltb_ge in D30. refine (ago_not_just_now _ _ _ E).
        apply Z.div_le_lower_bound; lia.
Qed.

Lemma formatTaskAge_just_now_witness :
  formatTaskAge 1000 61000 = "Just now"%string.
Proof.
  apply (formatTaskAge_just_now 1000 61000). lia.
Defined.

Lemma whole_units (elapsed size n : Z) :
  0 < size -> n = elapsed / size ->
  n * size <= elapsed < (n + 1) * size.
Proof.
  intros Hs Hn. subst n.
  pose proof (Z.mul_div_le elapsed size Hs).
  pose proof (Z.mul_succ_div_gt elapsed size Hs). lia.
Qed.

(** X2.  From one minute on the label is [n unit(s) ago] where [n] is the
    number of whole units gone by: minutes up to 59, then hours up to
    23, then days of 24 hours up to 29, then months of 30 days without
    an upper limit.  [n] is never 0. *)
Theorem formatTaskAge_counts_whole_units :
  forall now created : Z,
    60000 <= now - created ->
    exists (n size : Z) (unit : string),
      formatTaskAge now created = ago n unit
      /\ 1 <= n
      /\ n * size <= now - created < (n + 1) * size
      /\ ((unit = "minute"%string /\ size = 60000 /\ n <= 59)
          \/ (unit = "hour"%string /\ size = 3600000 /\ n <= 23)
          \/ (unit = "day"%string /\ size = 86400000 /\ n <= 29)
          \/ (unit = "month"%string /\ size = 2592000000)).
Proof.
  intros now created H. unfold formatTaskAge.
  change (1000 * 60) with 60000.
  set (elapsed := now - created) in *.
  assert (H1 : 1 <= elapsed / 60000)
    by (apply Z.div_le_lower_bound; lia).
  destruct (elapsed / 60000 <? 60) eqn:M60.
  - apply Z.ltb_lt in M60.
    destruct (elapsed / 60000 <? 1) eqn:M1; [apply Z.ltb_lt in M1; lia|].
    exists (elapsed / 60000), 60000, "minute"%string.
    split; [reflexivity|]. split; [exact H1|].
    split; [apply whole_units; lia|]. left. repeat split; lia.
  - apply Z.ltb_ge in M60.
    assert (Hh : elapsed / 60000 / 60 = elapsed / 3600000)
      by (rewrite Z.div_div by lia; reflexivity).
    rewrite Hh in *.
    assert (H2 : 1 <= elapsed / 3600000)
      by (rewrite <- Hh; apply Z.div_le_lower_bound; lia).
    destruct (elapsed / 3600000 <? 24) eqn:H24.
    + apply Z.ltb_lt in H24.
      exists (elapsed / 3600000), 3600000, "hour"%string.
      split; [reflexivity|]. split; [exact H2|].
      split; [apply whole_units; lia|]. right. left. repeat split; lia.
    + apply Z.ltb_ge in H24.
      assert (Hd : elapsed / 3600000 / 24 = elapsed / 86400000)
        by (rewrite Z.div_div by lia; reflexivity).
      rewrite Hd in *.
      assert (H3 : 1 <= elapsed / 86400000)
        by (rewrite <- Hd; apply Z.div_le_lower_bound; lia).
      destruct (elapsed / 86400000 <? 30) eqn:D30.
      * apply Z.ltb_lt in D30.
        exists (elapsed / 86400000), 86400000, "day"%string.
        split; [reflexivity|]. split; [exact H3|].
        split; [apply whole_units; lia|].
        right. right. left. repeat split; lia.
      * apply Z.ltb_ge in D30.
        assert (Hmo : elapsed / 86400000 / 30 = elapsed / 2592000000)
          by (rewrite Z.div_div by lia; reflexivity).
        rewrite Hmo.
        exists (elapsed / 2592000000), 2592000000, "month"%string.
        split; [reflexivity|].
        split; [rewrite <- Hmo; apply Z.div_le_lower_bound; lia|].
        split; [apply whole_units; lia|].
        right. right. right. split; reflexivity.
Qed.

Lemma formatTaskAge_counts_whole_units_witness :
  exists (n size : Z) (unit : string),
    formatTaskAge (400 * 86400000) 0 = ago n unit
    /\ 1 <= n
    /\ n * size <= 400 * 86400000 - 0 < (n + 1) * size
    /\ ((unit = "minute"%string /\ size = 60000 /\ n <= 59)
        \/ (unit = "hour"%string /\ size = 3600000 /\ n <= 23)
        \/ (unit = "day"%string /\ size = 86400000 /\ n <= 29)
        \/ (unit = "month"%string /\ size = 2592000000)).
Proof.
  apply (formatTaskAge_counts_whole_units (400 * 86400000) 0). lia.
Defined.

(** ** Moving an element back *)

(** Moving the element at [i] to [j] and then the element at [j] to [i]
    gives the array back. *)
Lemma arrayMove_round_trip {A : Type} (l l' : list A) (i j : nat) :
  (i < List.length l)%nat ->
  (j < List.length l)%nat ->
  arrayMove l (Z.of_nat i) (Z.of_nat j) = Some l' ->
  nth_error l' j = nth_error l i
  /\ arrayMove l' (Z.of_nat j) (Z.of_nat i) = Some l.
Proof.
  intros Hi Hj Hmove.
  destruct (nth_error l i) as [x|] eqn:Hx;
    [|apply nth_error_None in Hx; lia].
  assert (L : List.length (remove_at i l) = (List.length l - 1)%nat)
    by (apply remove_at_length; exact Hi).
  rewrite (arrayMove_inside l i j x Hx Hj) in Hmove.
  inversion Hmove; subst l'; clear Hmove.
  assert (Hj' : nth_error (insert_at j x (remove_at i l)) j = Some x)
    by (apply nth_error_insert_at; lia).
  split; [exact Hj'|].
  rewrite (arrayMove_inside _ j i x Hj').
  - rewrite remove_at_insert_at by lia.
    rewrite insert_at_remove_at by exact Hx. reflexivity.
  - unfold insert_at. rewrite length_app. simpl.
    rewrite length_firstn, length_skipn. lia.
Qed.

(** ** Drags that name no listed task *)

(** With [from = -1] the inner [splice] takes the last element out. *)
Lemma arrayMove_from_minus_one {A : Type} (l : list A) (to : Z) :
  l <> [] ->
  arrayMove l (-1) to = arrayMove l (Z.of_nat (List.length l - 1)) to.
Proof.
  intros Hl.
  assert (L : (0 < List.length l)%nat)
    by (destruct l; simpl; [congruence | lia]).
  unfold arrayMove.
  replace (splice_start (List.length l) (-1)) with (List.length l - 1)%nat
    by (unfold splice_start; simpl; lia).
  rewrite splice_start_inside by lia. reflexivity.
Qed.

(** With [to = -1] the element is put back at the end. *)
Lemma arrayMove_to_minus_one {A : Type} (l : list A) (i : nat) (x : A) :
  nth_error l i = Some x ->
  arrayMove l (Z.of_nat i) (-1) = Some (remove_at i l ++ [x]).
Proof.
  intros Hx.
  assert (Hi : (i < List.length l)%nat)
    by (apply nth_error_Some; congruence).
  unfold arrayMove. rewrite splice_start_inside by lia. rewrite Hx.
  change (-1 <? 0) with true. cbv iota.
  replace (Z.of_nat (List.length l) + -1)
    with (Z.of_nat (List.length (remove_at i l)))
    by (rewrite remove_at_length by exact Hi; lia).
  rewrite splice_start_inside by lia.
  unfold insert_at. rewrite firstn_all, skipn_all. reflexivity.
Qed.

Section Drags.

Context {B : Type} {store : Supabase B}.

(** X4.  A drop on the dragged task itself does nothing at all.  A drop on
    no task ([over] is [null]) makes the handler throw a [TypeError]
    before it has sent a call or written a cell. *)
Theorem handleDragEnd_nothing_to_move :
  forall (w : World) (a : str),
    dispatch (fun c => handleDragEnd c (mkDragEnd a (Some a))) w = w
    /\ exists message,
         handleDragEnd (app w) (mkDragEnd a None) w
         = (Throw (TypeError message), w).
Proof.
  intros w a. split.
  - unfold dispatch, handleDragEnd. simpl.
    rewrite (proj2 (str_eqb_eq a a) eq_refl). reflexivity.
  - eexists. reflexivity.
Qed.

(** X5.  A drag whose dragged id is not in the list, dropped on the task at
    index [j]: [findIndex] answers [-1] and the last task of the list
    is the one relocated to [j].  When the store accepts the updates
    the list committed is the old one with its last task moved to
    [j]. *)
Theorem handleDragEnd_unlisted_active :
  forall (w : World) (a o : str) (j : nat) (last : Task.t)
         (l' : list Task.t),
    ~ In a (map Task.id (tasks (app w))) ->
    findIndex (has_id o) (tasks (app w)) = Z.of_nat j ->
    nth_error (tasks (app w)) (List.length (tasks (app w)) - 1) = Some last ->
    nth_error l' j = Some last ->
    remove_at j l' = remove_at (List.length (tasks (app w)) - 1)
                               (tasks (app w)) ->
    updates_succeed (remote w) (entries l') = true ->
    let w' := dispatch (fun c => handleDragEnd c (mkDragEnd a (Some o))) w in
    tasks (app w') = l'
    /\ issued w' = issued w ++ map priority_update (entries l').
Proof.
  intros w a o j last l' Ha Hj Hlast Hl' Hrest Hok w'.
  assert (Hne : tasks (app w) <> []).
  { intros E. rewrite E in Hlast. discriminate. }
  assert (Hao : a <> o).
  { intros E. subst o. destruct (findIndex_found _ _ _ Hj) as [x [Hx Hid]].
    apply Ha. apply in_map_iff. exists x. split.
    - apply str_eqb_eq. exact Hid.
    - apply nth_error_In with j. exact Hx. }
  assert (Hmove : arrayMove (tasks (app w))
                    (findIndex (has_id a) (tasks (app w)))
                    (findIndex (has_id o) (tasks (app w))) = Some l').
  { rewrite (proj2 (findIndex_absent _ _) Ha), Hj.
    rewrite arrayMove_from_minus_one by exact Hne.
    destruct (findIndex_found _ _ _ Hj) as [x [Hx _]].
    rewrite (arrayMove_inside _ _ j last Hlast)
      by (apply nth_error_Some; congruence).
    f_equal. symmetry. eapply relocation_unique; eauto. }
  subst w'. rewrite (handleDragEnd_committed w a o l' Hao Hmove Hok).
  simpl. split; reflexivity.
Qed.

(** X6.  A drag of the task at index [i] dropped on an id that is not in the
    list: the dragged task goes to the end of the list. *)
Theorem handleDragEnd_unlisted_over :
  forall (w : World) (a o : str) (i : nat) (dragged : Task.t),
    findIndex (has_id a) (tasks (app w)) = Z.of_nat i ->
    nth_error (tasks (app w)) i = Some dragged ->
    ~ In o (map Task.id (tasks (app w))) ->
    updates_succeed (remote w)
      (entries (remove_at i (tasks (app w)) ++ [dragged])) = true ->
    tasks (app (dispatch (fun c => handleDragEnd c (mkDragEnd a (Some o))) w))
    = remove_at i (tasks (app w)) ++ [dragged].
Proof.
  intros w a o i dragged Hi Hd Ho Hok.
  assert (Hao : a <> o).
  { intros E. subst o. destruct (findIndex_found _ _ _ Hi) as [x [Hx Hid]].
    apply Ho. apply in_map_iff. exists x. split.
    - apply str_eqb_eq. exact Hid.
    - apply nth_error_In with i. exact Hx. }
  assert (Hmove : arrayMove (tasks (app w))
                    (findIndex (has_id a) (tasks (app w)))
                    (findIndex (has_id o) (tasks (app w)))
                  = Some (remove_at i (tasks (app w)) ++ [dragged])).
  { rewrite (proj2 (findIndex_absent _ _) Ho), Hi.
    apply arrayMove_to_minus_one. exact Hd. }
  rewrite (handleDragEnd_committed w a o _ Hao Hmove Hok). reflexivity.
Qed.

End Drags.

Lemma handleDragEnd_unlisted_active_witness :
  tasks (app (dispatch
                (fun c => handleDragEnd c (Sample.drag "gone" "t1"))
                (Sample.world [])))
  = [Sample.call_mum; Sample.milk; Sample.rent].
Proof.
  refine (proj1 (handleDragEnd_unlisted_active (Sample.world [])
                   (lit "gone") (lit "t1") 0 Sample.call_mum
                   [Sample.call_mum; Sample.milk; Sample.rent]
                   _ _ _ _ _ _));
    try reflexivity.
  intros H. vm_compute in H. intuition discriminate.
Defined.

Lemma handleDragEnd_unlisted_over_witness :
  tasks (app (dispatch
                (fun c => handleDragEnd c (Sample.drag "t1" "gone"))
                (Sample.world [])))
  = [Sample.rent; Sample.call_mum; Sample.milk].
Proof.
  apply (handleDragEnd_unlisted_over (Sample.world []) (lit "t1")
           (lit "gone") 0 Sample.milk); try reflexivity.
  intros H. vm_compute in H. intuition discriminate.
Defined.

(** ** Fetching *)

Section Fetching.

Context {B : Type} {store : Supabase B}.

Ltac run_monad :=
  unfold bind, try_catch, ret, throw, throw_if, console_error, setTasks,
    setNewTask, setSelectedTask, setNotes, setSortType, setSortOrder,
    setUser, set_state, from_tasks_select, from_tasks_insert,
    from_tasks_update, from_tasks_delete, call in *.

(** X8.  Without a user [fetchTasks] sends nothing and changes nothing.
    With a user it sends one select, ordered by [priority] in priority
    mode and by [created_at] in age mode, ascending when the order is
    [asc].  When the store answers with rows they replace the task list
    ([null] gives the empty list) and every other cell keeps its value:
    the selection and the notes buffer survive even when the selected
    task is not among the rows. *)
Theorem fetchTasks_replaces_list :
  forall (w : World),
    let column := match sortType (app w) with
                  | priority => priority_column
                  | age => created_at_column
                  end in
    let ascending := match sortOrder (app w) with
                     | asc => true
                     | desc => false
                     end in
    let w' := dispatch fetchTasks w in
    (user (app w) = None -> w' = w)
    /\ (user (app w) <> None ->
        issued w' = issued w ++ [Select column ascending]
        /\ forall data,
             fst (select_order column ascending (remote w)) = inr data ->
             app w'
             = mkApp (user (app w))
                     (match data with Some rows => rows | None => [] end)
                     (newTask (app w)) (selectedTask (app w))
                     (notes (app w)) (sortType (app w)) (sortOrder (app w))).
Proof.
  intros w column ascending w'. subst w'. unfold dispatch, fetchTasks.
  split.
  - intros H. rewrite H. reflexivity.
  - intros H. destruct (user (app w)) as [u|] eqn:U; [|congruence].
    run_monad. fold column ascending.
    destruct (select_order column ascending (remote w))
      as [[error|data] b] eqn:E; simpl.
    + split; [reflexivity|]. intros data H'. discriminate.
    + split; [reflexivity|]. intros data' H'. inversion H'; subst.
      rewrite U. reflexivity.
Qed.

(** Toggling only writes the two sort cells. *)
Lemma toggles_from_priority (w : @World B) (n : nat) :
  sortType (app w) = priority ->
  Nat.iter (S n) (dispatch toggleSort) w
  = mkWorld (mkApp (user (app w)) (tasks (app w)) (newTask (app w))
                   (selectedTask (app w)) (notes (app w)) age
                   (if Nat.odd n then asc else desc))
            (remote w) (issued w) (console w).
Proof.
  intros H. induction n as [|n IH].
  - simpl. unfold dispatch, toggleSort. rewrite H. run_monad. reflexivity.
  - change (Nat.iter (S (S n)) (dispatch toggleSort) w)
      with (dispatch toggleSort (Nat.iter (S n) (dispatch toggleSort) w)).
    rewrite IH. unfold dispatch, toggleSort. simpl. run_monad. simpl.
    rewrite Nat.odd_succ, <- Nat.negb_odd.
    destruct (Nat.odd n); reflexivity.
Qed.

(** X9.  Once the sort button has been used, no fetch asks for the priority
    order again: after [n + 1] toggles out of priority mode a fetch
    orders by [created_at], descending after an odd number of toggles
    and ascending after an even number. *)
Theorem fetch_after_toggles :
  forall (w : World) (n : nat),
    sortType (app w) = priority ->
    user (app w) <> None ->
    issued (dispatch fetchTasks (Nat.iter (S n) (dispatch toggleSort) w))
    = issued w ++ [Select created_at_column (Nat.odd n)].
Proof.
  intros w n Hs Hu. rewrite (toggles_from_priority w n Hs).
  unfold dispatch, fetchTasks. simpl.
  destruct (user (app w)) as [u|]; [|congruence].
  run_monad.
  destruct (Nat.odd n); simpl;
    destruct (select_order _ _ (remote w)) as [[error|data] b];
    reflexivity.
Qed.

End Fetching.

Lemma fetchTasks_replaces_list_witness :
  let w := Sample.world [] in
  issued (dispatch fetchTasks w) = [Select priority_column true]
  /\ tasks (app (dispatch fetchTasks w))
     = [Sample.milk; Sample.rent; Sample.call_mum]
  /\ selectedTask (app (dispatch fetchTasks w)) = Some Sample.rent.
Proof.
  intros w.
  destruct (fetchTasks_replaces_list w) as [_ H].
  destruct H as [H1 H2]; [discriminate|].
  split; [exact H1|].
  rewrite (H2 (Some [Sample.milk; Sample.rent; Sample.call_mum]) eq_refl).
  split; reflexivity.
Defined.

Lemma fetch_after_toggles_witness :
  issued (dispatch fetchTasks
            (Nat.iter 2 (dispatch toggleSort) (Sample.world [])))
  = [Select created_at_column true].
Proof.
  apply (fetch_after_toggles (Sample.world []) 1);
    [reflexivity | discriminate].
Defined.

(** ** What each handler leaves behind *)

Lemma filter_keeps_all {A : Type} (p : A -> bool) (l : list A) :
  (forall x, In x l -> p x = true) -> filter p l = l.
Proof.
  induction l as [|y r IH]; intros H; simpl; [reflexivity|].
  rewrite (H y (or_introl eq_refl)). f_equal. apply IH.
  intros x Hx. apply H. right. exact Hx.
Qed.

Lemma has_id_false (x : str) (l : list Task.t) :
  ~ In x (map Task.id l) ->
  forall t, In t l -> negb (has_id x t) = true.
Proof.
  intros H t Ht. unfold has_id.
  destruct (str_eqb (Task.id t) x) eqn:Q; [|reflexivity].
  apply str_eqb_eq in Q. exfalso. apply H. apply in_map_iff.
  exists t. auto.
Qed.

(** With distinct ids, filtering an id out takes out one element. *)
Lemma filter_out_remove_at (l : list Task.t) (i : nat) (t : Task.t) :
  NoDup (map Task.id l) ->
  nth_error l i = Some t ->
  filter (fun task => negb (has_id (Task.id t) task)) l = remove_at i l.
Proof.
  revert i. induction l as [|y r IH]; intros i Hnd Hi;
    [destruct i; discriminate|].
  simpl in Hnd. inversion Hnd as [|z zs Hfresh Hnd']; subst.
  destruct i as [|i]; simpl in Hi.
  - inversion Hi; subst y. simpl. unfold has_id at 1.
    rewrite (proj2 (str_eqb_eq _ _) eq_refl). simpl.
    unfold remove_at. simpl.
    apply filter_keeps_all. apply has_id_false. exact Hfresh.
  - simpl. unfold has_id at 1.
    destruct (str_eqb (Task.id y) (Task.id t)) eqn:Q.
    + apply str_eqb_eq in Q. exfalso. apply Hfresh. rewrite Q.
      apply in_map. apply nth_error_In with i. exact Hi.
    + simpl. unfold remove_at. simpl. f_equal. apply (IH i Hnd' Hi).
Qed.

Lemma nth_error_remove_at_after {A : Type} (l : list A) (i k : nat) :
  (i <= k)%nat -> nth_error (remove_at i l) k = nth_error l (S k).
Proof.
  revert i k. induction l as [|y r IH]; intros i k H.
  - unfold remove_at. rewrite firstn_nil, skipn_nil. simpl.
    destruct k; reflexivity.
  - destruct i as [|i].
    + unfold remove_at. reflexivity.
    + destruct k as [|k]; [lia|].
      change (remove_at (S i) (y :: r)) with (y :: remove_at i r).
      simpl. apply IH. lia.
Qed.

Section Outcomes.

Context {B : Type} {store : Supabase B}.

Ltac run_monad :=
  unfold bind, try_catch, ret, throw, throw_if, console_error, setTasks,
    setNewTask, setSelectedTask, setNotes, setSortType, setSortOrder,
    setUser, set_state, from_tasks_select, from_tasks_insert,
    from_tasks_update, from_tasks_delete, call in *.

Lemma removeTask_outcome (w : World) (x : str) :
  let w' := dispatch (fun c => removeTask c x) w in
  issued w' = issued w ++ [Delete x]
  /\ app w'
     = if fails (Delete x) (remote w) then app w
       else
         let selected :=
           match selectedTask (app w) with
           | Some sel => has_id x sel
           | None => false
           end in
         mkApp (user (app w))
               (filter (fun task => negb (has_id x task)) (tasks (app w)))
               (newTask (app w))
               (if selected then None else selectedTask (app w))
               (if selected then [] else notes (app w))
               (sortType (app w)) (sortOrder (app w)).
Proof.
  unfold dispatch, removeTask. simpl. run_monad.
  destruct (delete_eq x (remote w)) as [[error|] b]; simpl.
  - split; reflexivity.
  - destruct (selectedTask (app w)) as [sel|] eqn:S; simpl.
    + destruct (has_id x sel); simpl; rewrite ?S; split; reflexivity.
    + rewrite ?S. split; reflexivity.
Qed.

Lemma addTask_outcome (w : World) :
  let w' := dispatch addTask w in
  app w' = app w
  \/ exists created,
       app w'
       = mkApp (user (app w)) (tasks (app w) ++ [created]) []
               (selectedTask (app w)) (notes (app w))
               (sortType (app w)) (sortOrder (app w)).
Proof.
  unfold dispatch, addTask.
  destruct (str_falsy (trim (newTask (app w)))); [left; reflexivity|].
  destruct (user (app w)) as [u|] eqn:U; [|left; reflexivity].
  run_monad.
  destruct (insert_single _ (remote w)) as [[error|data] b]; simpl.
  - left. reflexivity.
  - right. exists data. rewrite U. reflexivity.
Qed.

Lemma updateNotes_outcome (w : World) (newNotes : str) :
  let w' := dispatch (fun c => updateNotes c newNotes) w in
  app w'
  = match selectedTask (app w) with
    | None => app w
    | Some sel =>
        if fails (Update (patch_notes newNotes) (Task.id sel)) (remote w)
        then app w
        else
          mkApp (user (app w))
                (map (fun task =>
                        if has_id (Task.id sel) task
                        then Task.with_notes task newNotes
                        else task)
                     (tasks (app w)))
                (newTask (app w)) (Some sel) newNotes
                (sortType (app w)) (sortOrder (app w))
    end.
Proof.
  unfold dispatch, updateNotes.
  destruct (selectedTask (app w)) as [sel|] eqn:S; [|reflexivity].
  run_monad. simpl.
  destruct (update_eq (patch_notes newNotes) (Task.id sel) (remote w))
    as [[error|] b] eqn:E; simpl; rewrite ?S; reflexivity.
Qed.

Lemma for_of_keeps_app (es : list (Z * Task.t)) (v : World) :
  app (snd (for_of es persist_priority v)) = app v.
Proof.
  revert v. induction es as [|e r IH]; intros v; simpl; [reflexivity|].
  unfold bind. rewrite persist_priority_run. simpl.
  destruct (fst (update_eq _ _ (remote v))); simpl; [reflexivity|].
  rewrite IH. reflexivity.
Qed.

Lemma handleDragEnd_outcome (w : World) (event : DragEndEvent) :
  let w' := dispatch (fun c => handleDragEnd c event) w in
  app w' = app w
  \/ exists l',
       Permutation (tasks (app w)) l'
       /\ app w'
          = mkApp (user (app w)) l' (newTask (app w))
                  (selectedTask (app w)) (notes (app w))
                  (sortType (app w)) (sortOrder (app w)).
Proof.
  unfold dispatch, handleDragEnd.
  destruct (over event) as [over_id|]; [|left; reflexivity].
  destruct (negb (str_eqb (active event) over_id)); [|left; reflexivity].
  unfold try_catch.
  destruct (arrayMove _ _ _) as [newTasks|] eqn:Hmove; [|left; reflexivity].
  apply arrayMove_Permutation in Hmove. unfold bind.
  pose proof (for_of_keeps_app (entries newTasks) w) as Hloop.
  destruct (for_of (entries newTasks) persist_priority w) as [[[]|e] v];
    simpl in *; run_monad; simpl.
  - right. exists newTasks. rewrite Hloop. auto.
  - left. exact Hloop.
Qed.

(** X10.  Creating a task and deleting it again gives the task list back,
    provided the store gave the new row an id no listed task has. *)
Theorem addTask_removeTask_round_trip :
  forall (w : World) (created : Task.t),
    let w1 := dispatch addTask w in
    let w2 := dispatch (fun c => removeTask c (Task.id created)) w1 in
    tasks (app w1) = tasks (app w) ++ [created] ->
    ~ In (Task.id created) (map Task.id (tasks (app w))) ->
    fails (Delete (Task.id created)) (remote w1) = false ->
    tasks (app w2) = tasks (app w).
Proof.
  intros w created w1 w2 Hadd Hfresh Hok. subst w2.
  destruct (removeTask_outcome w1 (Task.id created)) as [_ H].
  rewrite Hok in H. rewrite H. simpl. rewrite Hadd, filter_app. simpl.
  unfold has_id at 2. rewrite (proj2 (str_eqb_eq _ _) eq_refl). simpl.
  rewrite app_nil_r. apply filter_keeps_all.
  apply has_id_false. exact Hfresh.
Qed.

(** X11.  The priority of a new task is the length of the list, not one more
    than the largest priority.  So when the priorities are the indices
    [0 .. n-1], deleting a task that is not the last one makes the next
    task created carry the priority the last listed task already
    has. *)
Theorem addTask_after_removeTask_repeats_priority :
  forall (w : World) (x : str) (i : nat) (u : User.t),
    NoDup (map Task.id (tasks (app w))) ->
    (forall k task, nth_error (tasks (app w)) k = Some task ->
                    Task.priority task = Z.of_nat k) ->
    findIndex (has_id x) (tasks (app w)) = Z.of_nat i ->
    (S i < List.length (tasks (app w)))%nat ->
    fails (Delete x) (remote w) = false ->
    user (app w) = Some u ->
    str_falsy (trim (newTask (app w))) = false ->
    let w1 := dispatch (fun c => removeTask c x) w in
    let w2 := dispatch addTask w1 in
    exists last,
      nth_error (tasks (app w1)) (List.length (tasks (app w1)) - 1)
      = Some last
      /\ issued w2
         = issued w1
           ++ [Insert (mkNewRow (newTask (app w)) [] (Task.priority last)
                                (User.id u))].
Proof.
  intros w x i u Hnd Hprio Hi Hlen Hok Hu Htext w1 w2.
  destruct (findIndex_found _ _ _ Hi) as [t [Ht Hid]].
  apply str_eqb_eq in Hid. subst x.
  destruct (removeTask_outcome w (Task.id t)) as [_ H1].
  fold w1 in H1. rewrite Hok in H1. simpl in H1.
  rewrite (filter_out_remove_at _ i t Hnd Ht) in H1.
  assert (L : List.length (remove_at i (tasks (app w)))
              = (List.length (tasks (app w)) - 1)%nat)
    by (apply remove_at_length; lia).
  destruct (nth_error (tasks (app w)) (List.length (tasks (app w)) - 1))
    as [last|] eqn:Hlast; [|apply nth_error_None in Hlast; lia].
  exists last. split.
  - rewrite H1. simpl. rewrite L, nth_error_remove_at_after by lia.
    replace (S (List.length (tasks (app w)) - 1 - 1))
      with (List.length (tasks (app w)) - 1)%nat by lia.
    exact Hlast.
  - subst w2. unfold dispatch, addTask. rewrite H1. simpl.
    rewrite Htext, Hu. run_monad. simpl.
    rewrite (Hprio _ _ Hlast), L.
    destruct (insert_single _ (remote w1)) as [[error|data] b];
      reflexivity.
Qed.

(** X12.  After an accepted notes edit the notes buffer holds the new text
    and agrees with the notes of every listed task that has the
    selected id.  The selection itself is not rewritten: the selected
    record still carries the notes it was selected with. *)
Theorem updateNotes_buffer_agrees :
  forall (w : World) (sel : Task.t) (newNotes : str),
    selectedTask (app w) = Some sel ->
    fails (Update (patch_notes newNotes) (Task.id sel)) (remote w) = false ->
    let w' := dispatch (fun c => updateNotes c newNotes) w in
    notes (app w') = newNotes
    /\ selectedTask (app w') = Some sel
    /\ forall task,
         In task (tasks (app w')) -> Task.id task = Task.id sel ->
         Task.notes task = notes (app w').
Proof.
  intros w sel newNotes Hsel Hok w'. subst w'.
  rewrite (updateNotes_outcome w newNotes), Hsel, Hok. simpl.
  split; [reflexivity|]. split; [reflexivity|].
  intros task Hin Hid. apply in_map_iff in Hin.
  destruct Hin as [t0 [Ht0 _]]. unfold has_id in Ht0.
  destruct (str_eqb (Task.id t0) (Task.id sel)) eqn:Q.
  - subst task. reflexivity.
  - subst task. apply str_eqb_neq in Q. contradiction.
Qed.

End Outcomes.

Lemma sample_ids_distinct :
  NoDup (map Task.id (tasks (app (Sample.world [])))).
Proof.
  repeat constructor; intros H; vm_compute in H; intuition discriminate.
Qed.

Lemma addTask_removeTask_round_trip_witness :
  let w1 := dispatch addTask (Sample.world []) in
  tasks (app (dispatch (fun c => removeTask c (lit "t4")) w1))
  = [Sample.milk; Sample.rent; Sample.call_mum].
Proof.
  intros w1.
  apply (addTask_removeTask_round_trip (Sample.world [])
           (Task.mk (lit "t4") (lit "water plants") [] 3 (lit "ann")
                    (lit "2025-04-10T08:00:00Z")));
    try reflexivity.
  intros H. vm_compute in H. intuition discriminate.
Defined.

Lemma addTask_after_removeTask_repeats_priority_witness :
  let w1 := dispatch (fun c => removeTask c (lit "t1")) (Sample.world []) in
  exists last,
    nth_error (tasks (app w1)) (List.length (tasks (app w1)) - 1) = Some last
    /\ issued (dispatch addTask w1)
       = issued w1
         ++ [Insert (mkNewRow (lit "water plants") [] (Task.priority last)
                              (lit "ann"))].
Proof.
  apply (addTask_after_removeTask_repeats_priority (Sample.world [])
           (lit "t1") 0 Sample.ann); try reflexivity.
  - exact sample_ids_distinct.
  - intros [|[|[|[|k]]]] task H; simpl in H; inversion H; reflexivity.
  - simpl. lia.
Defined.

Lemma updateNotes_buffer_agrees_witness :
  let w' := dispatch (fun c => updateNotes c (lit "paid")) (Sample.world []) in
  notes (app w') = lit "paid" /\ selectedTask (app w') = Some Sample.rent.
Proof.
  intros w'.
  destruct (updateNotes_buffer_agrees (Sample.world []) Sample.rent
              (lit "paid")) as [H1 [H2 _]]; try reflexivity.
  split; [exact H1 | exact H2].
Defined.

(** ** Navigation *)

(** With distinct ids a listed task is found where it is. *)
Lemma findIndex_NoDup (l : list Task.t) (k : nat) (t : Task.t) :
  NoDup (map Task.id l) ->
  nth_error l k = Some t ->
  findIndex (has_id (Task.id t)) l = Z.of_nat k.
Proof.
  revert k. induction l as [|y r IH]; intros k Hnd Hk;
    [destruct k; discriminate|].
  simpl in Hnd. inversion Hnd as [|z zs Hfresh Hnd']; subst.
  destruct k as [|k]; simpl in Hk.
  - inversion Hk; subst y. simpl. unfold has_id.
    rewrite (proj2 (str_eqb_eq _ _) eq_refl). reflexivity.
  - simpl. unfold has_id at 1.
    destruct (str_eqb (Task.id y) (Task.id t)) eqn:Q.
    + apply str_eqb_eq in Q. exfalso. apply Hfresh. rewrite Q.
      apply in_map. apply nth_error_In with k. exact Hk.
    + rewrite (IH k Hnd' Hk).
      destruct (Z.of_nat k <? 0) eqn:N; [apply Z.ltb_lt in N; lia|]. lia.
Qed.

Lemma at_index_of_nat {A : Type} (l : list A) (k : nat) :
  at_index l (Z.of_nat k) = nth_error l k.
Proof.
  unfold at_index.
  destruct (Z.of_nat k <? 0) eqn:N; [apply Z.ltb_lt in N; lia|].
  rewrite Nat2Z.id. reflexivity.
Qed.

(** The adjacent task, with the indices as natural numbers. *)
Lemma getAdjacentTask_at (c : App) (sel : Task.t) (i : nat) :
  selectedTask c = Some sel ->
  findIndex (has_id (Task.id sel)) (tasks c) = Z.of_nat i ->
  let n := List.length (tasks c) in
  getAdjacentTask c next = nth_error (tasks c) ((i + 1) mod n)
  /\ getAdjacentTask c prev = nth_error (tasks c) ((i + n - 1) mod n).
Proof.
  intros Hsel Hi n.
  pose proof (findIndex_range (has_id (Task.id sel)) (tasks c)) as R.
  assert (Hn : (0 < n)%nat) by (subst n; lia).
  unfold getAdjacentTask. rewrite Hsel, Hi. fold n.
  destruct (Z.of_nat n =? 0) eqn:N0; [apply Z.eqb_eq in N0; lia|].
  destruct (Z.of_nat i =? -1) eqn:N1; [apply Z.eqb_eq in N1; lia|].
  unfold js_rem. rewrite !Z.rem_mod_nonneg by lia.
  split.
  - replace (Z.of_nat i + 1) with (Z.of_nat (i + 1)) by lia.
    rewrite <- Nat2Z.inj_mod. apply at_index_of_nat.
  - replace (Z.of_nat i - 1 + Z.of_nat n) with (Z.of_nat (i + n - 1)) by lia.
    rewrite <- Nat2Z.inj_mod. apply at_index_of_nat.
Qed.

Section Navigation.

Context {B : Type}.

Lemma navigate_outcome (w : @World B) (direction : Direction) :
  dispatch (fun c => navigate c direction) w
  = match getAdjacentTask (app w) direction with
    | Some adjacent => selecting w adjacent
    | None => w
    end.
Proof.
  unfold dispatch, navigate.
  destruct (getAdjacentTask (app w) direction); reflexivity.
Qed.

End Navigation.

Section Browsing.

Context {B : Type}.

Let go (direction : Direction) (w : @World B) : @World B :=
  dispatch (fun c => navigate c direction) w.

Lemma go_step (w : @World B) (direction : Direction) (sel : Task.t)
  (i : nat) :
  NoDup (map Task.id (tasks (app w))) ->
  selectedTask (app w) = Some sel ->
  findIndex (has_id (Task.id sel)) (tasks (app w)) = Z.of_nat i ->
  let n := List.length (tasks (app w)) in
  let j := match direction with
           | next => ((i + 1) mod n)%nat
           | prev => ((i + n - 1) mod n)%nat
           end in
  exists adjacent,
    nth_error (tasks (app w)) j = Some adjacent
    /\ findIndex (has_id (Task.id adjacent)) (tasks (app w)) = Z.of_nat j
    /\ go direction w = selecting w adjacent.
Proof.
  intros Hnd Hsel Hi n j.
  pose proof (findIndex_range (has_id (Task.id sel)) (tasks (app w))) as R.
  assert (Hn : (0 < n)%nat) by (subst n; lia).
  assert (Hj : (j < n)%nat)
    by (subst j; destruct direction; apply Nat.mod_upper_bound; lia).
  destruct (nth_error (tasks (app w)) j) as [adjacent|] eqn:E;
    [|apply nth_error_None in E; subst n; lia].
  exists adjacent. split; [reflexivity|].
  split; [apply findIndex_NoDup; assumption|].
  unfold go. rewrite navigate_outcome.
  destruct (getAdjacentTask_at (app w) sel i Hsel Hi) as [Hnext Hprev].
  fold n in Hnext, Hprev.
  destruct direction; subst j; [rewrite Hnext | rewrite Hprev];
    rewrite E; reflexivity.
Qed.

(** The handler alone, with distinct ids and a listed selection: next
    and then prev, or the other way round, selects the listed task the
    selection started from. *)
Lemma go_there_and_back :
  forall (w : @World B) (sel start : Task.t) (i : nat),
    NoDup (map Task.id (tasks (app w))) ->
    selectedTask (app w) = Some sel ->
    findIndex (has_id (Task.id sel)) (tasks (app w)) = Z.of_nat i ->
    nth_error (tasks (app w)) i = Some start ->
    let forth := dispatch (fun c => navigate c next) w in
    let back := dispatch (fun c => navigate c prev) w in
    dispatch (fun c => navigate c prev) forth = selecting w start
    /\ dispatch (fun c => navigate c next) back = selecting w start.
Proof.
  intros w sel start i Hnd Hsel Hi Hstart forth back.
  set (n := List.length (tasks (app w))).
  assert (Hin : (i < n)%nat)
    by (subst n; apply nth_error_Some; congruence).
  assert (Hround : forall d1 d2 j,
             (j < n)%nat ->
             (match d2 with
              | next => (j + 1) mod n
              | prev => (j + n - 1) mod n
              end)%nat = i ->
             j = (match d1 with
                  | next => (i + 1) mod n
                  | prev => (i + n - 1) mod n
                  end)%nat ->
             go d2 (go d1 w) = selecting w start).
  { intros d1 d2 j Hj Hback Hforth.
    destruct (go_step w d1 sel i Hnd Hsel Hi) as [a [Ha [Hfa Hgo]]].
    fold n in Ha, Hfa. rewrite <- Hforth in Ha, Hfa.
    rewrite Hgo.
    destruct (go_step (selecting w a) d2 a j Hnd eq_refl Hfa)
      as [b [Hb [_ Hgo2]]].
    simpl in Hb. fold n in Hb. rewrite Hback, Hstart in Hb.
    inversion Hb; subst b. rewrite Hgo2. reflexivity. }
  split.
  - apply (Hround next prev ((i + 1) mod n)%nat);
      [apply Nat.mod_upper_bound; lia | | reflexivity].
    destruct (Nat.eq_dec (i + 1) n) as [E|E].
    + rewrite E, Nat.Div0.mod_same. simpl.
      rewrite Nat.mod_small by lia. lia.
    + rewrite (Nat.mod_small (i + 1)) by lia.
      replace (i + 1 + n - 1)%nat with (i + 1 * n)%nat by lia.
      rewrite Nat.Div0.mod_add. apply Nat.mod_small. lia.
  - apply (Hround prev next ((i + n - 1) mod n)%nat);
      [apply Nat.mod_upper_bound; lia | | reflexivity].
    destruct i as [|i].
    + replace (0 + n - 1)%nat with (n - 1)%nat by lia.
      rewrite (Nat.mod_small (n - 1)) by lia.
      replace (n - 1 + 1)%nat with n by lia.
      apply Nat.Div0.mod_same.
    + replace (S i + n - 1)%nat with (i + 1 * n)%nat by lia.
      rewrite Nat.Div0.mod_add, (Nat.mod_small i) by lia.
      rewrite Nat.mod_small by lia. lia.
Qed.

Lemma go_next_iter (w : @World B) (sel : Task.t) (i k : nat) :
  NoDup (map Task.id (tasks (app w))) ->
  selectedTask (app w) = Some sel ->
  findIndex (has_id (Task.id sel)) (tasks (app w)) = Z.of_nat i ->
  let n := List.length (tasks (app w)) in
  exists reached,
    nth_error (tasks (app w)) ((i + S k) mod n) = Some reached
    /\ findIndex (has_id (Task.id reached)) (tasks (app w))
       = Z.of_nat ((i + S k) mod n)
    /\ Nat.iter (S k) (go next) w = selecting w reached.
Proof.
  intros Hnd Hsel Hi n. induction k as [|k [reached [Hr [Hf Hit]]]].
  - destruct (go_step w next sel i Hnd Hsel Hi) as [a [Ha [Hfa Hgo]]].
    exists a. auto.
  - change (Nat.iter (S (S k)) (go next) w)
      with (go next (Nat.iter (S k) (go next) w)).
    rewrite Hit.
    destruct (go_step (selecting w reached) next reached
                ((i + S k) mod n) Hnd eq_refl Hf) as [a [Ha [Hfa Hgo]]].
    simpl in Ha, Hfa. fold n in Ha, Hfa.
    rewrite Nat.Div0.add_mod_idemp_l in Ha, Hfa.
    replace (i + S k + 1)%nat with (i + S (S k))%nat in Ha, Hfa by lia.
    exists a. rewrite Hgo. auto.
Qed.

(** The handler alone, run as many times as there are tasks. *)
Lemma go_full_circle :
  forall (w : @World B) (sel start : Task.t) (i : nat),
    NoDup (map Task.id (tasks (app w))) ->
    selectedTask (app w) = Some sel ->
    findIndex (has_id (Task.id sel)) (tasks (app w)) = Z.of_nat i ->
    nth_error (tasks (app w)) i = Some start ->
    Nat.iter (List.length (tasks (app w)))
             (dispatch (fun c => navigate c next)) w
    = selecting w start.
Proof.
  intros w sel start i Hnd Hsel Hi Hstart.
  set (n := List.length (tasks (app w))).
  assert (Hin : (i < n)%nat)
    by (subst n; apply nth_error_Some; congruence).
  destruct n as [|k] eqn:En; [lia|].
  destruct (go_next_iter w sel i k Hnd Hsel Hi) as [reached [Hr [_ Hit]]].
  fold n in Hr. rewrite En in Hr.
  replace (i + S k)%nat with (i + 1 * S k)%nat in Hr by lia.
  rewrite Nat.Div0.mod_add, Nat.mod_small in Hr by lia.
  rewrite Hstart in Hr. inversion Hr; subst reached. exact Hit.
Qed.

Lemma press_enabled (v : @World B) (direction : Direction) :
  (2 <= List.length (tasks (app v)))%nat ->
  dispatch (fun c => press c direction) v
  = dispatch (fun c => navigate c direction) v.
Proof.
  intros H. unfold dispatch, press.
  destruct (Z.of_nat (List.length (tasks (app v))) <=? 1) eqn:E;
    [apply Z.leb_le in E; lia | reflexivity].
Qed.

Lemma press_disabled (v : @World B) (direction : Direction) :
  (List.length (tasks (app v)) <= 1)%nat ->
  dispatch (fun c => press c direction) v = v.
Proof.
  intros H. unfold dispatch, press.
  destruct (Z.of_nat (List.length (tasks (app v))) <=? 1) eqn:E;
    [reflexivity | apply Z.leb_gt in E; lia].
Qed.

Lemma go_keeps_tasks (v : @World B) (direction : Direction) :
  tasks (app (go direction v)) = tasks (app v).
Proof.
  unfold go. rewrite navigate_outcome.
  destruct (getAdjacentTask (app v) direction); reflexivity.
Qed.

Lemma press_iter (w : @World B) (k : nat) :
  (2 <= List.length (tasks (app w)))%nat ->
  Nat.iter k (dispatch (fun c => press c next)) w = Nat.iter k (go next) w
  /\ tasks (app (Nat.iter k (go next) w)) = tasks (app w).
Proof.
  intros H. induction k as [|k [IH1 IH2]]; [split; reflexivity|].
  simpl. rewrite IH1. split.
  - apply press_enabled. rewrite IH2. exact H.
  - rewrite go_keeps_tasks. exact IH2.
Qed.

(** X13.  The previous and next buttons, with distinct ids and a listed
    selection.  With two tasks or more, pressing next and then
    previous, or previous and then next, selects the listed task the
    selection started from and loads its notes, changing nothing else.
    With a single task both buttons are disabled and the presses change
    nothing. *)
Theorem navigate_there_and_back :
  forall (w : @World B) (sel start : Task.t) (i : nat),
    NoDup (map Task.id (tasks (app w))) ->
    selectedTask (app w) = Some sel ->
    findIndex (has_id (Task.id sel)) (tasks (app w)) = Z.of_nat i ->
    nth_error (tasks (app w)) i = Some start ->
    let tap direction v := dispatch (fun c => press c direction) v in
    ((2 <= List.length (tasks (app w)))%nat ->
     tap prev (tap next w) = selecting w start
     /\ tap next (tap prev w) = selecting w start)
    /\ ((List.length (tasks (app w)) <= 1)%nat ->
        tap prev (tap next w) = w /\ tap next (tap prev w) = w).
Proof.
  intros w sel start i Hnd Hsel Hi Hstart tap. subst tap. split.
  - intros H2.
    destruct (go_there_and_back w sel start i Hnd Hsel Hi Hstart)
      as [H1 H3].
    assert (Kn : tasks (app (dispatch (fun c => navigate c next) w))
                 = tasks (app w)) by apply (go_keeps_tasks w next).
    assert (Kp : tasks (app (dispatch (fun c => navigate c prev) w))
                 = tasks (app w)) by apply (go_keeps_tasks w prev).
    rewrite !(press_enabled w) by exact H2.
    rewrite (press_enabled _ prev) by (rewrite Kn; exact H2).
    rewrite (press_enabled _ next) by (rewrite Kp; exact H2).
    split; [exact H1 | exact H3].
  - intros H1. rewrite !(press_disabled w) by exact H1.
    split; reflexivity.
Qed.

(** X14.  With distinct ids, a listed selection and two tasks or more,
    pressing the next button as many times as there are tasks comes
    back to the listed task the selection started from.  With a single
    task the button is disabled and the press changes nothing. *)
Theorem navigate_full_circle :
  forall (w : @World B) (sel start : Task.t) (i : nat),
    NoDup (map Task.id (tasks (app w))) ->
    selectedTask (app w) = Some sel ->
    findIndex (has_id (Task.id sel)) (tasks (app w)) = Z.of_nat i ->
    nth_error (tasks (app w)) i = Some start ->
    let presses :=
      Nat.iter (List.length (tasks (app w)))
               (dispatch (fun c => press c next)) w in
    ((2 <= List.length (tasks (app w)))%nat -> presses = selecting w start)
    /\ ((List.length (tasks (app w)) <= 1)%nat -> presses = w).
Proof.
  intros w sel start i Hnd Hsel Hi Hstart presses. subst presses. split.
  - intros H2. destruct (press_iter w (List.length (tasks (app w))) H2)
      as [H _].
    rewrite H. apply (go_full_circle w sel start i); assumption.
  - intros H1.
    assert (Hin : (i < List.length (tasks (app w)))%nat)
      by (apply nth_error_Some; congruence).
    assert (L : List.length (tasks (app w)) = 1%nat) by lia.
    rewrite L. simpl. apply press_disabled. lia.
Qed.

(** X15.  Navigation sends no call and leaves the task list alone; with no
    selection, or with a selection whose id is not in the list, it
    changes nothing at all. *)
Theorem navigate_idle :
  forall (w : @World B) (direction : Direction),
    let w' := dispatch (fun c => navigate c direction) w in
    issued w' = issued w
    /\ remote w' = remote w
    /\ tasks (app w') = tasks (app w)
    /\ ((forall sel, selectedTask (app w) = Some sel ->
                     ~ In (Task.id sel) (map Task.id (tasks (app w)))) ->
        w' = w).
Proof.
  intros w direction w'. subst w'. rewrite navigate_outcome.
  split; [|split; [|split]].
  - destruct (getAdjacentTask (app w) direction); reflexivity.
  - destruct (getAdjacentTask (app w) direction); reflexivity.
  - destruct (getAdjacentTask (app w) direction); reflexivity.
  - intros H. unfold getAdjacentTask.
    destruct (selectedTask (app w)) as [sel|]; [|reflexivity].
    destruct (Z.of_nat (List.length (tasks (app w))) =? 0); [reflexivity|].
    rewrite (proj2 (findIndex_absent _ _) (H sel eq_refl)). reflexivity.
Qed.

End Browsing.

(** X16.  The number in [Task #k of n] lies between 1 and the number of tasks
    when the selected task is listed, and is 0 when it is not. *)
Theorem taskNumber_range :
  forall (c : App) (sel : Task.t),
    selectedTask c = Some sel ->
    exists k,
      taskNumber c = Some k
      /\ (In (Task.id sel) (map Task.id (tasks c)) ->
          1 <= k <= Z.of_nat (List.length (tasks c)))
      /\ (~ In (Task.id sel) (map Task.id (tasks c)) -> k = 0).
Proof.
  intros c sel Hsel. unfold taskNumber. rewrite Hsel.
  eexists. split; [reflexivity|].
  pose proof (findIndex_range (has_id (Task.id sel)) (tasks c)) as R.
  split.
  - intros Hin. destruct (findIndex_In _ _ Hin) as [i Hi]. lia.
  - intros Hout. rewrite (proj2 (findIndex_absent _ _) Hout). reflexivity.
Qed.

Lemma navigate_there_and_back_witness :
  let w := Sample.world [] in
  let tap direction v := dispatch (fun c => press c direction) v in
  tap prev (tap next w) = selecting w Sample.rent
  /\ tap next (tap prev w) = selecting w Sample.rent.
Proof.
  intros w tap.
  destruct (navigate_there_and_back w Sample.rent Sample.rent 1)
    as [H _]; try reflexivity.
  - exact sample_ids_distinct.
  - apply H. simpl. lia.
Defined.

Lemma navigate_full_circle_witness :
  let w := Sample.world [] in
  Nat.iter 3 (dispatch (fun c => press c next)) w
  = selecting w Sample.rent.
Proof.
  intros w.
  refine (proj1 (navigate_full_circle w Sample.rent Sample.rent 1
                   _ _ _ _) _);
    try reflexivity.
  - exact sample_ids_distinct.
  - simpl. lia.
Defined.

Lemma navigate_idle_witness :
  let w := mkWorld (mkApp (Some Sample.ann) [Sample.milk; Sample.rent] []
                          (Some Sample.call_mum) [] priority asc)
                   (Sample.db []) [] [] in
  dispatch (fun c => navigate c next) w = w.
Proof.
  intros w.
  destruct (navigate_idle w next) as [_ [_ [_ H]]]. apply H.
  intros sel Hsel. inversion Hsel; subst sel.
  intros E. vm_compute in E. intuition discriminate.
Defined.

Lemma taskNumber_range_witness :
  exists k,
    taskNumber Sample.state = Some k
    /\ (In (lit "t2") (map Task.id (tasks Sample.state)) -> 1 <= k <= 3)
    /\ (~ In (lit "t2") (map Task.id (tasks Sample.state)) -> k = 0).
Proof.
  apply (taskNumber_range Sample.state Sample.rent). reflexivity.
Defined.

(** ** What the handlers keep *)

Lemma NoDup_map_filter {A C : Type} (f : A -> C) (p : A -> bool)
  (l : list A) :
  NoDup (map f l) -> NoDup (map f (filter p l)).
Proof.
  induction l as [|y r IH]; intros H; simpl in *; [exact H|].
  inversion H as [|z zs Hfresh Hnd]; subst.
  destruct (p y); simpl; [|apply IH; exact Hnd].
  constructor; [|apply IH; exact Hnd].
  intros Hin. apply Hfresh. apply in_map_iff in Hin.
  destruct Hin as [x [Hx Hin]]. apply filter_In in Hin.
  apply in_map_iff. exists x. tauto.
Qed.

Lemma map_id_with_notes (x v : str) (l : list Task.t) :
  map Task.id
      (map (fun task => if has_id x task then Task.with_notes task v
                        else task) l)
  = map Task.id l.
Proof.
  rewrite map_map. apply map_ext. intros t.
  destruct (has_id x t); reflexivity.
Qed.

Section Invariants.

Context {B : Type} {store : Supabase B}.

Lemma perform_keeps_selection (w : World) (a : Action) :
  keeps_selection a = true ->
  selection_listed (app w) ->
  selection_listed (app (perform w a)).
Proof.
  intros Ha Hinv.
  destruct a as [| |x|newNotes|event| |change]; simpl in *;
    try discriminate.
  - destruct (addTask_outcome w) as [H|[created H]]; rewrite H;
      [exact Hinv|].
    intros sel Hsel. simpl in *. rewrite map_app.
    apply in_or_app. left. apply Hinv. exact Hsel.
  - destruct (removeTask_outcome w x) as [_ H]. rewrite H.
    destruct (fails (Delete x) (remote w)); [exact Hinv|].
    intros sel Hsel. simpl in *.
    destruct (selectedTask (app w)) as [s|] eqn:S; [|discriminate].
    destruct (has_id x s) eqn:Q; [discriminate|].
    inversion Hsel; subst s.
    specialize (Hinv sel S). apply in_map_iff in Hinv.
    destruct Hinv as [t [Ht Hin]]. apply in_map_iff. exists t.
    split; [exact Ht|]. apply filter_In. split; [exact Hin|].
    unfold has_id in *. rewrite Ht, Q. reflexivity.
  - rewrite (updateNotes_outcome w newNotes).
    destruct (selectedTask (app w)) as [s|] eqn:S; [|exact Hinv].
    destruct (fails _ (remote w)); [exact Hinv|].
    intros sel Hsel. simpl in *. rewrite map_id_with_notes.
    inversion Hsel; subst s. apply Hinv. exact S.
  - destruct (handleDragEnd_outcome w event) as [H|[l' [Hp H]]];
      rewrite H; [exact Hinv|].
    intros sel Hsel. simpl in *.
    apply (Permutation_in _ (Permutation_map Task.id Hp)).
    apply Hinv. exact Hsel.
Qed.

(** X17.  Whatever the store answers, creating, deleting, editing notes
    and reordering never leave a selection that is not in the list: if
    the selected task's id is listed before a run of these handlers, it
    is listed, or nothing is selected, afterwards.  (A fetch is not
    among them, nor is a click on the sort button, which makes the
    effect fetch: a fetch replaces the list and keeps the
    selection.) *)
Theorem selection_stays_listed :
  forall (w : World) (actions : list Action),
    forallb keeps_selection actions = true ->
    selection_listed (app w) ->
    selection_listed (app (run w actions)).
Proof.
  intros w actions. revert w. unfold run.
  induction actions as [|a r IH]; intros w Ha Hinv; simpl in *;
    [exact Hinv|].
  apply andb_prop in Ha. destruct Ha as [Ha Hr].
  apply IH; [exact Hr|]. apply perform_keeps_selection; assumption.
Qed.

Lemma perform_keeps_ids (w : World) (a : Action) :
  edits_in_place a = true ->
  NoDup (map Task.id (tasks (app w))) ->
  NoDup (map Task.id (tasks (app (perform w a))))
  /\ incl (map Task.id (tasks (app (perform w a))))
          (map Task.id (tasks (app w))).
Proof.
  intros Ha Hnd.
  destruct a as [| |x|newNotes|event| |change]; simpl in *;
    try discriminate.
  - destruct (removeTask_outcome w x) as [_ H]. rewrite H.
    destruct (fails (Delete x) (remote w));
      [split; [exact Hnd | apply incl_refl]|].
    simpl. split; [apply NoDup_map_filter; exact Hnd|].
    intros y Hy. apply in_map_iff in Hy. destruct Hy as [t [Ht Hin]].
    apply filter_In in Hin. apply in_map_iff. exists t. tauto.
  - rewrite (updateNotes_outcome w newNotes).
    destruct (selectedTask (app w)) as [s|];
      [|split; [exact Hnd | apply incl_refl]].
    destruct (fails _ (remote w));
      [split; [exact Hnd | apply incl_refl]|].
    simpl. rewrite map_id_with_notes.
    split; [exact Hnd | apply incl_refl].
  - destruct (handleDragEnd_outcome w event) as [H|[l' [Hp H]]];
      rewrite H; [split; [exact Hnd | apply incl_refl]|].
    simpl. pose proof (Permutation_map Task.id Hp) as Hp'.
    split; [apply (Permutation_NoDup Hp'); exact Hnd|].
    intros y Hy. apply (Permutation_in _ (Permutation_sym Hp')). exact Hy.
Qed.

(** X18.  Whatever the store answers, deleting, editing notes and
    reordering keep the ids of the listed tasks distinct and bring no
    id into the list that was not there. *)
Theorem edits_keep_ids_distinct :
  forall (w : World) (actions : list Action),
    forallb edits_in_place actions = true ->
    NoDup (map Task.id (tasks (app w))) ->
    NoDup (map Task.id (tasks (app (run w actions))))
    /\ incl (map Task.id (tasks (app (run w actions))))
            (map Task.id (tasks (app w))).
Proof.
  intros w actions. revert w. unfold run.
  induction actions as [|a r IH]; intros w Ha Hnd; simpl in *;
    [split; [exact Hnd | apply incl_refl]|].
  apply andb_prop in Ha. destruct Ha as [Ha Hr].
  destruct (perform_keeps_ids w a Ha Hnd) as [H1 H2].
  destruct (IH (perform w a) Hr H1) as [H3 H4].
  split; [exact H3|]. eapply incl_tran; eassumption.
Qed.

End Invariants.

Lemma sample_selection_listed : selection_listed Sample.state.
Proof.
  intros sel H. inversion H; subst sel. vm_compute. auto.
Qed.

Lemma selection_stays_listed_witness :
  selection_listed
    (app (run (Sample.world [false; true])
              [Remove (lit "t2"); Add; DragEnd (Sample.drag "t1" "t3");
               EditNotes (lit "x")])).
Proof.
  apply (selection_stays_listed (Sample.world [false; true]));
    [reflexivity | exact sample_selection_listed].
Defined.

Lemma edits_keep_ids_distinct_witness :
  let w := Sample.world [] in
  let actions := [DragEnd (Sample.drag "t3" "t1"); Remove (lit "t2");
                  EditNotes (lit "x")] in
  NoDup (map Task.id (tasks (app (run w actions))))
  /\ incl (map Task.id (tasks (app (run w actions))))
          (map Task.id (tasks (app w))).
Proof.
  intros w actions.
  apply (edits_keep_ids_distinct w actions);
    [reflexivity | exact sample_ids_distinct].
Defined.

(** ** The view button *)

(** X19.  The view button goes through the three modes and is back after
    three clicks, never earlier; its label names the mode the next
    click leads to; and every mode shows at least one of the two
    panels, both only in split mode. *)
Theorem viewMode_cycle :
  forall m : ViewMode,
    nextViewMode (nextViewMode (nextViewMode m)) = m
    /\ nextViewMode m <> m
    /\ nextViewMode (nextViewMode m) <> m
    /\ viewButtonLabel m
       = match nextViewMode m with
         | split_view => "To Split View"%string
         | list_view => "To List View"%string
         | notes_view => "To Note View"%string
         end
    /\ showsTaskList m || showsNotes m = true
    /\ (showsTaskList m && showsNotes m = true <-> m = split_view).
Proof.
  intros m. destruct m; simpl;
    repeat split; try discriminate; auto; intros H; discriminate.
Qed.

(** ** Signing in *)

Section Attempts.

Context {A : Type} {provider : SupabaseAuth A}.

Lemma attempt_outcome (rq : AuthRequest) (serve : A -> AuthOutcome * A)
  (w : GateWorld) :
  attempt rq serve w
  = mkGateWorld
      (mkGate false (email (gate w)) (password (gate w))
              (match fst (serve (auth w)) with
               | resolved None => []
               | resolved (Some error) => message error
               | rejected => lit "An unexpected error occurred"
               end))
      (snd (serve (auth w)))
      (auth_issued w ++ [rq]).
Proof.
  unfold attempt. simpl.
  destruct (serve (auth w)) as [[[error|]|] a]; reflexivity.
Qed.

(** X20.  A sign-in or sign-up attempt sends one call with the email and the
    password as typed and always ends with [loading] off.  The error
    line is emptied when the provider accepts, set to the provider's
    message when it answers with an error, and set to
    [An unexpected error occurred] when the call rejects; what it held
    before the attempt never survives.  The typed email and password
    stay in their cells. *)
Theorem sign_in_attempt_settles :
  forall (w : GateWorld) (sign_up : bool),
    let c := gate w in
    let w' := if sign_up then handleSignUp c w else handleSignIn c w in
    let outcome :=
      fst ((if sign_up then signUp else signInWithPassword)
             (email c) (password c) (auth w)) in
    loading (gate w') = false
    /\ auth_issued w'
       = auth_issued w
         ++ [(if sign_up then SignUp else SignIn) (email c, password c)]
    /\ authError (gate w')
       = match outcome with
         | resolved None => []
         | resolved (Some error) => message error
         | rejected => lit "An unexpected error occurred"
         end
    /\ email (gate w') = email c
    /\ password (gate w') = password c.
Proof.
  intros w sign_up c w' outcome. subst w' outcome c.
  destruct sign_up; unfold handleSignUp, handleSignIn;
    rewrite attempt_outcome; simpl; repeat split.
Qed.

End Attempts.

(** ** Changing the session *)

Section Sessions.

Context {B : Type} {store : Supabase B}.

(** X21.  Signing out only clears [user]: the task list, the selection and
    the notes buffer stay in memory behind the sign-in form, and no
    call is sent.  When another user then signs in and the fetch that
    follows is answered with an error, the task view is shown with the
    tasks, the selection and the notes that were in memory before the
    sign-out. *)
Theorem sign_out_keeps_tasks :
  forall (p : Page B) (u : User.t),
    let signed_out := on_world fetch_effect (onAuthStateChange None p) in
    let signed_in :=
      on_world fetch_effect (onAuthStateChange (Some u) signed_out) in
    let refetch :=
      Select (match sortType (app (page_world p)) with
              | priority => priority_column
              | age => created_at_column
              end)
             (match sortOrder (app (page_world p)) with
              | asc => true
              | desc => false
              end) in
    (screen signed_out = SignInForm
     /\ tasks (app (page_world signed_out)) = tasks (app (page_world p))
     /\ selectedTask (app (page_world signed_out))
        = selectedTask (app (page_world p))
     /\ notes (app (page_world signed_out)) = notes (app (page_world p))
     /\ issued (page_world signed_out) = issued (page_world p))
    /\ (fails refetch (remote (page_world p)) = true ->
        screen signed_in = TaskView
        /\ user (app (page_world signed_in)) = Some u
        /\ tasks (app (page_world signed_in)) = tasks (app (page_world p))
        /\ selectedTask (app (page_world signed_in))
           = selectedTask (app (page_world p))
        /\ notes (app (page_world signed_in)) = notes (app (page_world p))).
Proof.
  intros p u signed_out signed_in refetch.
  subst signed_in signed_out refetch.
  unfold on_world, onAuthStateChange, screen, dispatch, fetch_effect,
    fetchTasks, setUser, set_state, try_catch, bind, from_tasks_select,
    call, console_error, throw, ret, setTasks. simpl.
  split; [repeat split|].
  intros Hfail.
  destruct (select_order _ _ (remote (page_world p)))
    as [[error|data] b]; simpl in *; [|discriminate].
  repeat split.
Qed.

End Sessions.

Lemma sign_in_attempt_settles_witness :
  let w' := handleSignIn Demo.form
              (Demo.gate_world
                 [resolved (Some (mkAuthError (lit "Invalid login")))]) in
  loading (gate w') = false
  /\ authError (gate w') = lit "Invalid login"
  /\ auth_issued w' = [SignIn (lit "ann@example.org", lit "secret")].
Proof.
  intros w'.
  destruct (sign_in_attempt_settles
              (Demo.gate_world
                 [resolved (Some (mkAuthError (lit "Invalid login")))])
              false) as [H1 [H2 [H3 _]]].
  split; [exact H1|]. split; [exact H3 | exact H2].
Defined.

Lemma sign_out_keeps_tasks_witness :
  let p := Demo.page [true] in
  let signed_out := on_world fetch_effect (onAuthStateChange None p) in
  let signed_in :=
    on_world fetch_effect (onAuthStateChange (Some Demo.bob) signed_out) in
  screen signed_in = TaskView
  /\ user (app (page_world signed_in)) = Some Demo.bob
  /\ tasks (app (page_world signed_in))
     = [Sample.milk; Sample.rent; Sample.call_mum].
Proof.
  intros p signed_out signed_in.
  destruct (sign_out_keeps_tasks p Demo.bob) as [_ H].
  destruct H as [H1 [H2 [H3 _]]]; [reflexivity|].
  split; [exact H1|]. split; [exact H2 | exact H3].
Defined.

(** ** Dragging a task back *)

Section DragBack.

Context {B : Type} {store : Supabase B}.

(** X7.  With distinct ids, after a task has been dragged from index [i] to
    index [j], dragging it onto the task that now sits at index [i]
    restores the list, provided the store accepts the updates of both
    reorders. *)
Theorem handleDragEnd_drag_back :
  forall (w : World) (a o : str) (i j : nat) (l' : list Task.t)
         (back : Task.t),
    NoDup (map Task.id (tasks (app w))) ->
    a <> o ->
    findIndex (has_id a) (tasks (app w)) = Z.of_nat i ->
    findIndex (has_id o) (tasks (app w)) = Z.of_nat j ->
    arrayMove (tasks (app w)) (Z.of_nat i) (Z.of_nat j) = Some l' ->
    updates_succeed (remote w) (entries l') = true ->
    nth_error l' i = Some back ->
    let w1 := dispatch (fun c => handleDragEnd c (mkDragEnd a (Some o))) w in
    updates_succeed (remote w1) (entries (tasks (app w))) = true ->
    tasks (app w1) = l'
    /\ tasks (app (dispatch
                     (fun c => handleDragEnd c
                                 (mkDragEnd a (Some (Task.id back))))
                     w1))
       = tasks (app w).
Proof.
  intros w a o i j l' back Hnd Hao Hi Hj Hmove Hok Hback w1 Hok1.
  destruct (findIndex_found _ _ _ Hi) as [x [Hx Hxa]].
  destruct (findIndex_found _ _ _ Hj) as [y [Hy Hyo]].
  apply str_eqb_eq in Hxa. apply str_eqb_eq in Hyo.
  assert (Li : (i < List.length (tasks (app w)))%nat)
    by (apply nth_error_Some; congruence).
  assert (Lj : (j < List.length (tasks (app w)))%nat)
    by (apply nth_error_Some; congruence).
  assert (Hij : i <> j) by (intros E; subst j; congruence).
  destruct (arrayMove_round_trip _ _ _ _ Li Lj Hmove) as [Hxj Hround].
  rewrite Hx in Hxj.
  assert (Hnd' : NoDup (map Task.id l')).
  { apply (Permutation_NoDup
             (Permutation_map Task.id (arrayMove_Permutation _ _ _ _ Hmove))).
    exact Hnd. }
  assert (Hw1 : w1 = mkWorld
                  (mkApp (user (app w)) l' (newTask (app w))
                         (selectedTask (app w)) (notes (app w))
                         (sortType (app w)) (sortOrder (app w)))
                  (serve_updates (remote w) (entries l'))
                  (issued w ++ map priority_update (entries l'))
                  (console w)).
  { subst w1. apply handleDragEnd_committed; [exact Hao | | exact Hok].
    rewrite Hi, Hj. exact Hmove. }
  split; [rewrite Hw1; reflexivity|].
  assert (Ha' : findIndex (has_id a) l' = Z.of_nat j)
    by (rewrite <- Hxa; apply findIndex_NoDup; assumption).
  assert (Hb' : findIndex (has_id (Task.id back)) l' = Z.of_nat i)
    by (apply findIndex_NoDup; assumption).
  assert (Hne : a <> Task.id back).
  { intros E. rewrite <- E in Hb'. rewrite Ha' in Hb'. lia. }
  rewrite (handleDragEnd_committed w1 a (Task.id back) (tasks (app w)) Hne).
  - reflexivity.
  - rewrite Hw1. simpl. rewrite Ha', Hb'. exact Hround.
  - exact Hok1.
Qed.

End DragBack.

Lemma handleDragEnd_drag_back_witness :
  let w := Sample.world [] in
  let w1 := dispatch (fun c => handleDragEnd c (Sample.drag "t1" "t3")) w in
  tasks (app w1) = [Sample.rent; Sample.call_mum; Sample.milk]
  /\ tasks (app (dispatch (fun c => handleDragEnd c (Sample.drag "t1" "t2"))
                          w1))
     = [Sample.milk; Sample.rent; Sample.call_mum].
Proof.
  intros w w1.
  apply (handleDragEnd_drag_back w (lit "t1") (lit "t3") 0 2
           [Sample.rent; Sample.call_mum; Sample.milk] Sample.rent);
    try reflexivity.
  - exact sample_ids_distinct.
  - intros E. vm_compute in E. discriminate E.
Defined.

Lemma viewMode_cycle_witness :
  nextViewMode (nextViewMode (nextViewMode list_view)) = list_view
  /\ viewButtonLabel list_view = "To Note View"%string.
Proof.
  destruct (viewMode_cycle list_view) as [H1 [_ [_ [H2 _]]]].
  split; [exact H1 | exact H2].
Defined.
